(** * NetApp C-mode block storage library: catalog cache and invalidation

    A shallow embedding of
    [cinder/volume/drivers/netapp/dataontap/block_cmode.py]
    (class [NetAppBlockStorageCmodeLibrary]) and the properties of its
    stale-pool set, LUN lifecycle hooks and pool statistics.

    Methods of the class become computations in a state-and-exception
    monad over the attributes of [self]; a Python [raise] keeps the
    mutations done before it, so an outcome always carries the state. *)

From Stdlib Require Import ZArith QArith Qabs String List Lia.
From Stdlib Require Import SpecFloat.
From stdpp Require Import gmap strings list fin_maps.

Local Open Scope Z_scope.

(** ** Python values used by the driver *)

(** A [str] that may be [None] (what [get_child_content] and
    [dict.get] give back). *)
Definition pystr := option string.

(** ['%s' % v] *)
Definition fmt_s (v : pystr) : string :=
  match v with
  | Some s => s
  | None => "None"
  end.

(** Truth value of a [str]-or-[None]: [None] and [''] are false. *)
Definition truthy (v : pystr) : bool :=
  match v with
  | None => false
  | Some s => negb (String.eqb s "")
  end.

(** [six.text_type(b).lower()] for a [bool] [b]: ['True'] / ['False']
    lower-cased. *)
Definition text_type_lower (b : bool) : string :=
  if b then "true" else "false".

(** Exceptions that can leave the methods modelled here. The backend
    client may raise any of them. *)
Inductive exn :=
| VolumeBackendAPIException (data : string)
| NaApiError (code message : string)
| KeyError (key : string)
| TypeError (message : string)
| ZeroDivisionError
| OverflowError
| InvalidOperation.

Inductive result (A : Type) :=
| Ok (a : A)
| Raise (e : exn).
Arguments Ok {A} a.
Arguments Raise {A} e.

(** ** Collaborators that live outside [block_cmode.py] *)

(** Identity of a pool: [vol.id['name']] and [vol.id['vserver']]. *)
Record VolId := { id_name : pystr; id_vserver : pystr }.

#[global] Instance VolId_eq_dec : EqDecision VolId.
Proof. solve_decision. Defined.

#[global] Instance VolId_countable : Countable VolId.
Proof.
  refine (inj_countable' (fun i => (id_name i, id_vserver i))
                         (fun p => {| id_name := p.1; id_vserver := p.2 |}) _).
  by intros [].
Defined.

(** Modelled from the spec: the class [NetAppVolume] of [ssc_cmode] is
    not part of this file. The spec's Pool Inventory Model gives it an
    identity (pool name and owning vserver), raw capacity in bytes and
    aggregate attributes; [block_cmode.py] reads them as the
    dictionaries [vol.id], [vol.space] and [vol.aggr], so the last two
    are kept as maps in which a key may be missing. Byte counts are
    integers. *)
Record NetAppVolume := {
  vol_id : VolId;
  vol_space : gmap string Z;
  vol_aggr : gmap string string
}.

(** [ssc_cmode.NetAppVolume(name, vserver)]: only the identity is filled
    in. *)
Definition NetAppVolume_init (name vserver : pystr) : NetAppVolume :=
  {| vol_id := {| id_name := name; id_vserver := vserver |};
     vol_space := ∅; vol_aggr := ∅ |}.

(** ** Python sets of pools

    Modelled from the spec: [NetAppVolume.__eq__] and [__hash__] are in
    [ssc_cmode]; the spec says pools have set semantics, identity-unique
    by pool name and context. A [set] of [NetAppVolume] objects is
    therefore a finite map from identities to the object stored under
    it. *)
Abbreviation VolSet := (gmap VolId NetAppVolume).

(** [vol in s] *)
Definition set_in (vol : NetAppVolume) (s : VolSet) : bool :=
  bool_decide (is_Some (s !! vol_id vol)).

(** [s.add(vol)]: an element equal to [vol] that is already there is
    kept. *)
Definition set_add (vol : NetAppVolume) (s : VolSet) : VolSet :=
  match s !! vol_id vol with
  | Some _ => s
  | None => <[vol_id vol := vol]> s
  end.

(** [for vol in s]: the elements in the order of iteration (which
    Python leaves unspecified). *)
Definition set_iter (s : VolSet) : list NetAppVolume :=
  (map_to_list s).*2.

Arguments set_in : simpl never.
Arguments set_add : simpl never.
Arguments set_iter : simpl never.

(** Raw backend record ([NaElement]): child name to child content;
    [get_child_content] gives [None] for a missing child. *)
Abbreviation NaElement := (gmap string string).

Definition get_child_content (e : NaElement) (child : string) : pystr :=
  e !! child.

(** LUN metadata dictionary. *)
Abbreviation Metadata := (gmap string pystr).

(** Modelled from the spec: [block_base.NetAppLun] is not part of this
    file; it is built here as [NetAppLun(handle, name, size, metadata)]
    and holds the LUN handle and the metadata snapshot of a LUN. *)
Record NetAppLun := {
  lun_handle : string;
  lun_name : string;
  lun_size : pystr;
  lun_metadata : Metadata
}.

(** Modelled from the spec: [NetAppLun.get_metadata_property] is not
    part of this file; it looks the property up in the recorded
    metadata and has no value ([None]) when nothing is recorded. *)
Definition get_metadata_property (lun : NetAppLun) (prop : string) : pystr :=
  default None (lun_metadata lun !! prop).

(** ** The driver object *)

Record Configuration := {
  netapp_size_multiplier : spec_float
}.

(** A Python [set] is an object: [add] and [clear] change it in place
    and every name bound to it sees the change, while [copy.deepcopy]
    makes a new object. The set objects therefore live in a store and
    are named by references. *)
Abbreviation ref := nat.

(** The attributes of [self] that the methods below touch; [B] is the
    state behind [self.zapi_client], [objects] the store of set objects
    and [stale_vols] the reference held by [self.stale_vols]. *)
Record Library (B : Type) := {
  vserver : string;
  configuration : Configuration;
  zapi_client : B;
  lun_table : gmap string NetAppLun;
  ssc_vols : option (gmap string VolSet);
  objects : gmap ref VolSet;
  stale_vols : ref
}.
Arguments vserver {B} _.
Arguments configuration {B} _.
Arguments zapi_client {B} _.
Arguments lun_table {B} _.
Arguments ssc_vols {B} _.
Arguments objects {B} _.
Arguments stale_vols {B} _.

Section Setters.
Context {B : Type}.

Definition set_zapi_client (b : B) (self : Library B) : Library B :=
  {| vserver := vserver self; configuration := configuration self;
     zapi_client := b; lun_table := lun_table self;
     ssc_vols := ssc_vols self; objects := objects self;
     stale_vols := stale_vols self |}.

Definition set_lun_table (t : gmap string NetAppLun) (self : Library B)
  : Library B :=
  {| vserver := vserver self; configuration := configuration self;
     zapi_client := zapi_client self; lun_table := t;
     ssc_vols := ssc_vols self; objects := objects self;
     stale_vols := stale_vols self |}.

Definition set_ssc_vols (c : option (gmap string VolSet)) (self : Library B)
  : Library B :=
  {| vserver := vserver self; configuration := configuration self;
     zapi_client := zapi_client self; lun_table := lun_table self;
     ssc_vols := c; objects := objects self;
     stale_vols := stale_vols self |}.

(** the set object [r] with the elements [s] *)
Definition set_object (r : ref) (s : VolSet) (self : Library B)
  : Library B :=
  {| vserver := vserver self; configuration := configuration self;
     zapi_client := zapi_client self; lun_table := lun_table self;
     ssc_vols := ssc_vols self; objects := <[r := s]> (objects self);
     stale_vols := stale_vols self |}.

(** the elements of the set object [r] *)
Definition deref (r : ref) (self : Library B) : VolSet :=
  default ∅ (objects self !! r).

(** the elements of [self.stale_vols] *)
Definition stale_set (self : Library B) : VolSet :=
  deref (stale_vols self) self.

(** [self.stale_vols], the same object, with the elements [s] *)
Definition set_stale_vols (s : VolSet) (self : Library B) : Library B :=
  set_object (stale_vols self) s self.
End Setters.

(** ** The monad of methods: state of [self] plus exceptions *)

Definition M (B A : Type) : Type := Library B → result A * Library B.

#[global] Instance M_ret {B} : MRet (M B) :=
  fun A (a : A) self => (Ok a, self).

#[global] Instance M_bind {B} : MBind (M B) :=
  fun A C (k : A → M B C) (m : M B A) self =>
    match m self with
    | (Ok a, self') => k a self'
    | (Raise e, self') => (Raise e, self')
    end.

#[global] Instance M_throw {B} : MThrow exn (M B) :=
  fun A (e : exn) self => (Raise e, self).

Section Monad.
Context {B : Type}.

(** read an attribute of [self] *)
Definition gets {A} (f : Library B → A) : M B A :=
  fun self => (Ok (f self), self).

(** update [self] in place *)
Definition modify (f : Library B → Library B) : M B unit :=
  fun self => (Ok tt, f self).

(** a call on [self.zapi_client] *)
Definition call {A} (op : B → result A * B) : M B A :=
  fun self =>
    let '(r, b) := op (zapi_client self) in (r, set_zapi_client b self).

(** a value that is there or an exception *)
Definition lift {A} (r : result A) : M B A :=
  fun self => (r, self).

(** [s.add(vol)] on the set object [s] *)
Definition add (s : ref) (vol : NetAppVolume) : M B unit :=
  modify (fun self => set_object s (set_add vol (deref s self)) self).

(** [s.clear()] on the set object [s] *)
Definition clear (s : ref) : M B unit :=
  modify (set_object s ∅).

(** [copy.deepcopy(s)] for the set object [s]: a new object with equal
    elements. *)
Definition deepcopy (s : ref) : M B ref :=
  fun self =>
    let set_copy := fresh (dom (objects self)) in
    (Ok set_copy, set_object set_copy (deref s self) self).
End Monad.

(** A computation that leaves [self] as it found it, whatever it
    returns or raises. *)
Definition read_only {B A} (m : M B A) : Prop :=
  ∀ self, (m self).2 = self.

(** ** The stale-pool set *)

Section StaleVols.
Context {B : Type}.

(** [_update_stale_vols(self, volume=None, reset=False)]; the
    [synchronized] decorator serialises callers and has no effect on a
    single call. A [NetAppVolume] object is true in [if volume:]. *)
Definition _update_stale_vols (volume : option NetAppVolume) (reset : bool)
  : M B (option ref) :=
  _ ← match volume with
      | Some vol =>
          stale ← gets stale_vols;
          add stale vol
      | None => mret tt
      end;
  if reset then
    stale ← gets stale_vols;
    set_copy ← deepcopy stale;
    stale ← gets stale_vols;
    _ ← clear stale;
    mret (Some set_copy)
  else mret None.
End StaleVols.

(** ** The backend client and the base library *)

(** [self.zapi_client]: the calls this file makes on it. Each may change
    the backend and may raise. *)
Class ZapiClient (B : Type) := {
  (** [create_lun(volume_name, lun_name, size, metadata, qos_policy_group)] *)
  create_lun : string → string → Z → Metadata → pystr → B → result unit * B;
  (** [clone_lun(volume, name, new_name, space_reserved, src_block,
      dest_block, block_count)] *)
  clone_lun : pystr → string → string → string → Z → Z → Z →
              B → result unit * B;
  (** [get_lun_by_args(vserver=..., path=...)] *)
  get_lun_by_args : string → string → B → result (list NaElement) * B;
  (** [get_fc_target_wwpns()] *)
  get_fc_target_wwpns : B → result (list string) * B
}.

(** A Cinder volume as handed to the driver entry points. *)
Abbreviation CinderVolume := (gmap string string).

(** [block_base.NetAppBlockStorageLibrary.delete_volume], reached through
    [super()]. The base class owns the LUN table and the client; the
    catalog and the stale set are attributes that only this subclass
    defines. *)
Class BlockBase (B : Type) := {
  super_delete_volume :
    CinderVolume → gmap string NetAppLun * B →
    result unit * (gmap string NetAppLun * B)
}.

(** Modelled from the spec: the base library is not part of this file.
    The spec has the deletion of a LUN without local metadata be no
    error: the base deletion of a volume whose name is not in the LUN
    table returns. What it does to the table and the backend is left
    open, and so is every deletion of a tracked LUN, which may raise. *)
Class BlockBaseSpec (B : Type) `{!BlockBase B} : Prop := {
  super_delete_untracked :
    ∀ (volume : CinderVolume) (volume_name : string)
      (table : gmap string NetAppLun) (b : B),
      volume !! "name" = Some volume_name →
      table !! volume_name = None →
      (super_delete_volume volume (table, b)).1 = Ok tt
}.

(** [d[key]] on a dictionary with string keys. *)
Definition subscript {V} (d : gmap string V) (key : string) : result V :=
  match d !! key with
  | Some v => Ok v
  | None => Raise (KeyError key)
  end.

Section Lifecycle.
Context {B : Type} `{!ZapiClient B} `{!BlockBase B}.

(** a call on the base class *)
Definition super_call {A}
    (op : gmap string NetAppLun * B → result A * (gmap string NetAppLun * B))
  : M B A :=
  fun self =>
    let '(r, (t, b)) := op (lun_table self, zapi_client self) in
    (r, set_zapi_client b (set_lun_table t self)).

(** [_create_lun(self, volume_name, lun_name, size, metadata,
    qos_policy_group=None)] *)
Definition _create_lun (volume_name lun_name : string) (size : Z)
    (metadata : Metadata) (qos_policy_group : pystr) : M B unit :=
  _ ← call (create_lun volume_name lun_name size metadata qos_policy_group);
  vs ← gets vserver;
  _ ← _update_stale_vols
        (Some (NetAppVolume_init (Some volume_name) (Some vs))) false;
  mret tt.

(** [_create_lun_meta(self, lun)]; [check_is_naelement] only rejects
    arguments that are not [NaElement]s. *)
Definition _create_lun_meta (lun : NaElement) : Metadata :=
  let meta_dict : Metadata := ∅ in
  let meta_dict := <["Vserver" := get_child_content lun "vserver"]> meta_dict in
  let meta_dict := <["Volume" := get_child_content lun "volume"]> meta_dict in
  let meta_dict := <["Qtree" := get_child_content lun "qtree"]> meta_dict in
  let meta_dict := <["Path" := get_child_content lun "path"]> meta_dict in
  let meta_dict :=
    <["OsType" := get_child_content lun "multiprotocol-type"]> meta_dict in
  let meta_dict :=
    <["SpaceReserved" :=
        get_child_content lun "is-space-reservation-enabled"]> meta_dict in
  meta_dict.

(** Modelled from the spec: [_get_lun_attr] belongs to the base library,
    which is not part of this file. For the attribute ['metadata'] it
    resolves the name of a tracked LUN to the metadata recorded for it
    in the LUN table. The spec does not say what the base library does
    with a name that is not in the table (it may ask the backend again);
    the stand-in answers [None] there, and the properties of [_clone_lun]
    below are stated for a source LUN that is in the table. *)
Definition _get_lun_attr_metadata (name : string) : M B (option Metadata) :=
  gets (fun self => lun_metadata <$> lun_table self !! name).

(** Modelled from the spec: [_add_lun_to_table] belongs to the base
    library, which is not part of this file. It registers the LUN in
    the LUN table under its name. *)
Definition _add_lun_to_table (lun : NetAppLun) : M B unit :=
  modify (fun self =>
            set_lun_table (<[lun_name lun := lun]> (lun_table self)) self).

(** [_clone_lun(self, name, new_name, space_reserved='true',
    src_block=0, dest_block=0, block_count=0)] *)
Definition _clone_lun (name new_name : string) (space_reserved : string)
    (src_block dest_block block_count : Z) : M B unit :=
  metadata ← _get_lun_attr_metadata name;
  volume ← match metadata with
           | Some metadata => lift (subscript metadata "Volume")
           | None => mthrow (TypeError "'NoneType' object is not subscriptable")
           end;
  _ ← call (clone_lun volume name new_name space_reserved 0 0 0);
  vs ← gets vserver;
  lun ← call (get_lun_by_args vs
                ("/vol/" +:+ fmt_s volume +:+ "/" +:+ new_name));
  match lun with
  | [] =>
      mthrow (VolumeBackendAPIException
                ("No cloned LUN named " +:+ new_name +:+ " found on the filer"))
  | lun_0 :: _ =>
      let clone_meta := _create_lun_meta lun_0 in
      clone_vserver ← lift (subscript clone_meta "Vserver");
      clone_path ← lift (subscript clone_meta "Path");
      _ ← _add_lun_to_table
            {| lun_handle := fmt_s clone_vserver +:+ ":" +:+ fmt_s clone_path;
               lun_name := new_name;
               lun_size := get_child_content lun_0 "size";
               lun_metadata := clone_meta |};
      _ ← _update_stale_vols
            (Some (NetAppVolume_init volume (Some vs))) false;
      mret tt
  end.

(** [_get_fc_target_wwpns(self, include_partner=True)] *)
Definition _get_fc_target_wwpns (include_partner : bool)
  : M B (list string) :=
  call get_fc_target_wwpns.

(** [refresh_ssc_vols(self, vols)] *)
Definition refresh_ssc_vols (vols : gmap string VolSet) : M B unit :=
  modify (set_ssc_vols (Some vols)).

(** [delete_volume(self, volume)]; a [NetAppLun] object is true in
    [if lun:]. *)
Definition delete_volume (volume : CinderVolume) : M B unit :=
  volume_name ← lift (subscript volume "name");
  lun ← gets (fun self => lun_table self !! volume_name);
  let netapp_vol :=
    match lun with
    | Some lun => get_metadata_property lun "Volume"
    | None => None
    end in
  _ ← super_call (super_delete_volume volume);
  if truthy netapp_vol then
    vs ← gets vserver;
    _ ← _update_stale_vols
          (Some (NetAppVolume_init netapp_vol (Some vs))) false;
    mret tt
  else mret tt.
End Lifecycle.

(** ** Floating point and capacity rounding *)

(** Python's [float] is IEEE 754 binary64. *)
Definition prec : Z := 53.
Definition emax : Z := 1024.

(** The double nearest to an integer [n] (ties to even), an infinity
    when that lies beyond the range of doubles. *)
Definition float_of_Z (n : Z) : spec_float :=
  binary_normalize prec emax n 0 false.

(** A double that is a number: a zero or a finite value. *)
Definition is_finite (x : spec_float) : bool :=
  match x with
  | S754_zero _ | S754_finite _ _ _ => true
  | _ => false
  end.

(** [float(n)] for an integer [n]: the nearest double; an integer too
    large to convert raises [OverflowError]. *)
Definition float (n : Z) : result spec_float :=
  let x := float_of_Z n in
  if is_finite x then Ok x else Raise OverflowError.

Definition is_zero (x : spec_float) : bool :=
  match x with
  | S754_zero _ => true
  | _ => false
  end.

(** [x / y] on floats: a zero divisor raises. *)
Definition truediv (x y : spec_float) : result spec_float :=
  if is_zero y then Raise ZeroDivisionError else Ok (SFdiv prec emax x y).

(** [oslo.utils.units.Gi] *)
Definition units_Gi : Z := 2 ^ 30.

(** A decimal number with a fixed number of places:
    [dec_unscaled / 10 ^ dec_places]. *)
Record Decimal := { dec_unscaled : Z; dec_places : nat }.

(** Places of a precision such as ['0.01']: the digits after the point. *)
Definition decimal_places (precision : string) : nat :=
  match index 0 "." precision with
  | Some i => (String.length precision - S i)%nat
  | None => 0%nat
  end.

(** Modelled from the spec: [na_utils.round_down] is not part of this
    file. The spec has it round a value down to the decimal places of
    the precision, by truncation and never to nearest. The result is
    kept as the exact decimal; a value that is not finite has no
    decimal. *)
Definition round_down (value : spec_float) (precision : string)
  : result Decimal :=
  let places := decimal_places precision in
  match value with
  | S754_zero _ => Ok {| dec_unscaled := 0; dec_places := places |}
  | S754_finite s m e =>
      let scaled := Z.pos m * 10 ^ Z.of_nat places in
      let magnitude :=
        if 0 <=? e then scaled * 2 ^ e else scaled / 2 ^ (- e) in
      Ok {| dec_unscaled := cond_Zopp s magnitude; dec_places := places |}
  | _ => Raise InvalidOperation
  end.

(** ** Pool statistics *)

(** One entry of the list [_get_pool_stats] returns: the dictionary
    [pool], whose keys are always the same. *)
Record Pool := {
  pool_name : pystr;
  QoS_support : bool;
  reserved_percentage : Z;
  total_capacity_gb : Decimal;
  free_capacity_gb : Decimal;
  netapp_raid_type : string;
  netapp_disk_type : string;
  netapp_mirrored : string;
  netapp_unmirrored : string;
  netapp_dedup : string;
  netapp_nodedup : string;
  netapp_compression : string;
  netapp_nocompression : string;
  netapp_thin_provisioned : string;
  netapp_thick_provisioned : string
}.

Section PoolStats.
Context {B : Type}.

(** [self.ssc_vols[key]] *)
Definition ssc_vols_getitem (key : string) : M B VolSet :=
  ssc ← gets ssc_vols;
  match ssc with
  | Some ssc => lift (subscript ssc key)
  | None => mthrow (TypeError "'NoneType' object is not subscriptable")
  end.

(** [not self.ssc_vols]: [None] and the empty dictionary are false. *)
Definition ssc_vols_falsy (ssc : option (gmap string VolSet)) : bool :=
  match ssc with
  | None => true
  | Some ssc => bool_decide (ssc = ∅)
  end.

(** The body of the loop of [_get_pool_stats] for one [vol], up to
    [pools.append(pool)]. *)
Definition pool_of (vol : NetAppVolume) : M B Pool :=
  let pool_name := id_name (vol_id vol) in
  (* convert sizes to GB and de-rate by NetApp multiplier *)
  size_total_bytes ← lift (subscript (vol_space vol) "size_total_bytes");
  total ← lift (float size_total_bytes);
  multiplier ← gets (fun self => netapp_size_multiplier (configuration self));
  total ← lift (truediv total multiplier);
  total ← lift (truediv total (float_of_Z units_Gi));
  total_capacity_gb ← lift (round_down total "0.01");
  size_avl_bytes ← lift (subscript (vol_space vol) "size_avl_bytes");
  free ← lift (float size_avl_bytes);
  multiplier ← gets (fun self => netapp_size_multiplier (configuration self));
  free ← lift (truediv free multiplier);
  free ← lift (truediv free (float_of_Z units_Gi));
  free_capacity_gb ← lift (round_down free "0.01");
  raid_type ← lift (subscript (vol_aggr vol) "raid_type");
  disk_type ← lift (subscript (vol_aggr vol) "disk_type");
  mirrored_vols ← ssc_vols_getitem "mirrored";
  let mirrored := set_in vol mirrored_vols in
  dedup_vols ← ssc_vols_getitem "dedup";
  let dedup := set_in vol dedup_vols in
  compression_vols ← ssc_vols_getitem "compression";
  let compression := set_in vol compression_vols in
  thin_vols ← ssc_vols_getitem "thin";
  let thin := set_in vol thin_vols in
  mret {| pool_name := pool_name;
          QoS_support := false;
          reserved_percentage := 0;
          total_capacity_gb := total_capacity_gb;
          free_capacity_gb := free_capacity_gb;
          netapp_raid_type := raid_type;
          netapp_disk_type := disk_type;
          netapp_mirrored := text_type_lower mirrored;
          netapp_unmirrored := text_type_lower (negb mirrored);
          netapp_dedup := text_type_lower dedup;
          netapp_nodedup := text_type_lower (negb dedup);
          netapp_compression := text_type_lower compression;
          netapp_nocompression := text_type_lower (negb compression);
          netapp_thin_provisioned := text_type_lower thin;
          netapp_thick_provisioned := text_type_lower (negb thin) |}.

(** [for vol in vols: ...; pools.append(pool)] *)
Fixpoint pools_loop (vols : list NetAppVolume) (pools : list Pool)
  : M B (list Pool) :=
  match vols with
  | [] => mret pools
  | vol :: vols =>
      pool ← pool_of vol;
      pools_loop vols (pools ++ [pool])
  end.

(** [_get_pool_stats(self)] *)
Definition _get_pool_stats : M B (list Pool) :=
  let pools := [] in
  ssc ← gets ssc_vols;
  if ssc_vols_falsy ssc then mret pools
  else
    all ← ssc_vols_getitem "all";
    pools_loop (set_iter all) pools.
End PoolStats.

(** ** Reading the statistics *)

(** The pools of the catalog in the order [_get_pool_stats] visits them:
    the elements of [self.ssc_vols['all']], none without a catalog. *)
Definition catalog_pools {B} (self : Library B) : list NetAppVolume :=
  match ssc_vols self with
  | Some ssc => from_option set_iter [] (ssc !! "all")
  | None => []
  end.

(** The boolean a capability tag spells. *)
Definition tag_bool (tag : string) : option bool :=
  if String.eqb tag "true" then Some true
  else if String.eqb tag "false" then Some false
  else None.

(** A pair of tags for one axis: both spell a boolean, the negative tag
    the negation of the positive one, and the positive tag is true
    exactly when [member] holds. *)
Definition paired (positive negative : string) (member : Prop) : Prop :=
  ∃ b : bool,
    tag_bool positive = Some b
    ∧ tag_bool negative = Some (negb b)
    ∧ (b = true ↔ member).

(** The tags of [pool] are those of [vol] in the catalog [ssc]: on each
    axis the positive tag is true exactly when the classification set
    holds a pool with the identity of [vol]. *)
Definition tags_of (ssc : gmap string VolSet) (vol : NetAppVolume)
    (pool : Pool) : Prop :=
  ∃ mirrored dedup compression thin : VolSet,
    ssc !! "mirrored" = Some mirrored
    ∧ ssc !! "dedup" = Some dedup
    ∧ ssc !! "compression" = Some compression
    ∧ ssc !! "thin" = Some thin
    ∧ paired (netapp_mirrored pool) (netapp_unmirrored pool)
             (is_Some (mirrored !! vol_id vol))
    ∧ paired (netapp_dedup pool) (netapp_nodedup pool)
             (is_Some (dedup !! vol_id vol))
    ∧ paired (netapp_compression pool) (netapp_nocompression pool)
             (is_Some (compression !! vol_id vol))
    ∧ paired (netapp_thin_provisioned pool) (netapp_thick_provisioned pool)
             (is_Some (thin !! vol_id vol)).

(** A byte count as a double, divided by the multiplier and by
    [units.Gi]. *)
Definition gibibytes (multiplier : spec_float) (bytes : Z)
  : result spec_float :=
  match truediv (float_of_Z bytes) multiplier with
  | Ok x => truediv x (float_of_Z units_Gi)
  | Raise e => Raise e
  end.

(** The rational number a double stands for (zero for infinities and
    NaN). *)
Definition float_value (x : spec_float) : Q :=
  match x with
  | S754_finite s m e =>
      if 0 <=? e then inject_Z (cond_Zopp s (Z.pos m * 2 ^ e))
      else cond_Zopp s (Z.pos m) # 2 ^ Z.to_pos (- e)
  | _ => 0
  end.

Definition decimal_value (d : Decimal) : Q :=
  dec_unscaled d # Pos.of_nat (10 ^ dec_places d).

(** [d] is [x] rounded down to two decimal places: [d] has two places,
    lies between zero and [x], and is less than one hundredth away from
    [x]. *)
Definition rounded_down_2 (x : Q) (d : Decimal) : Prop :=
  dec_places d = 2%nat
  ∧ (Qabs (decimal_value d) <= Qabs x)%Q
  ∧ (Qabs x < Qabs (decimal_value d) + (1 # 100))%Q
  ∧ (0 <= x * decimal_value d)%Q.

(** The capacities of [pool] are those of [vol]: its byte counts in
    gibibytes under the multiplier, rounded down to two places. *)
Definition capacity_of (multiplier : spec_float) (vol : NetAppVolume)
    (pool : Pool) : Prop :=
  ∃ size_total_bytes size_avl_bytes total free,
    vol_space vol !! "size_total_bytes" = Some size_total_bytes
    ∧ vol_space vol !! "size_avl_bytes" = Some size_avl_bytes
    ∧ gibibytes multiplier size_total_bytes = Ok total
    ∧ gibibytes multiplier size_avl_bytes = Ok free
    ∧ round_down total "0.01" = Ok (total_capacity_gb pool)
    ∧ round_down free "0.01" = Ok (free_capacity_gb pool)
    ∧ rounded_down_2 (float_value total) (total_capacity_gb pool)
    ∧ rounded_down_2 (float_value free) (free_capacity_gb pool).

(** The double [1.0]. *)
Definition float_one : spec_float :=
  S754_finite false 4503599627370496 (-52).

(** The capacity in exact arithmetic: the byte count divided by the
    multiplier and by [2^30], in hundredths, the fraction of a hundredth
    cut off. *)
Definition exact_hundredths (multiplier : Q) (bytes : Z) : Z :=
  let q := (inject_Z bytes / multiplier / inject_Z units_Gi * 100)%Q in
  Z.quot (Qnum q) (Z.pos (Qden q)).

(** ** Observing the calls made on the client *)

Inductive ZapiCall :=
| CreateLun (volume_name lun_name : string) (size : Z) (metadata : Metadata)
            (qos_policy_group : pystr)
| CloneLun (volume : pystr) (name new_name space_reserved : string)
           (src_block dest_block block_count : Z)
| GetLunByArgs (vserver path : string)
| GetFcTargetWwpns.

Section Traced.
Context {B : Type} `{!ZapiClient B}.

(** run [op] on the client and append [c] to the list of calls made *)
Definition traced {A} (c : ZapiCall) (op : B → result A * B)
  : B * list ZapiCall → result A * (B * list ZapiCall) :=
  fun '(b, calls) => let '(r, b') := op b in (r, (b', calls ++ [c])).

(** Any client, with every call on it recorded in order. *)
#[global] Instance Traced_client : ZapiClient (B * list ZapiCall) := {|
  create_lun v l s m q := traced (CreateLun v l s m q) (create_lun v l s m q);
  clone_lun v n nn sr x y z :=
    traced (CloneLun v n nn sr x y z) (clone_lun v n nn sr x y z);
  get_lun_by_args vs p := traced (GetLunByArgs vs p) (get_lun_by_args vs p);
  get_fc_target_wwpns := traced GetFcTargetWwpns get_fc_target_wwpns
|}.

Definition calls_of (self : Library (B * list ZapiCall)) : list ZapiCall :=
  (zapi_client self).2.
End Traced.

(** The block range of a recorded clone call is all zero. *)
Definition zero_block_range (c : ZapiCall) : Prop :=
  match c with
  | CloneLun _ _ _ _ src_block dest_block block_count =>
      src_block = 0 ∧ dest_block = 0 ∧ block_count = 0
  | _ => True
  end.

(** ** A small filer to run the methods on *)

(** An in-memory backend: LUN records by path, the FC target ports, a
    switch for a filer that cannot be reached, and one for a filer on
    which a clone is not visible yet when it is looked up. *)
Record Filer := {
  filer_luns : gmap string NaElement;
  filer_wwpns : list string;
  filer_reachable : bool;
  filer_clones_visible : bool
}.

Definition filer_put (path : string) (lun : NaElement) (f : Filer) : Filer :=
  {| filer_luns := <[path := lun]> (filer_luns f);
     filer_wwpns := filer_wwpns f;
     filer_reachable := filer_reachable f;
     filer_clones_visible := filer_clones_visible f |}.

Definition filer_lun_record (volume name : string) : NaElement :=
  {[ "vserver" := "vs1"; "volume" := volume;
     "path" := "/vol/" +:+ volume +:+ "/" +:+ name; "size" := "1073741824" ]}.

Definition filer_call {A} (op : Filer → A * Filer) (f : Filer)
  : result A * Filer :=
  if filer_reachable f then let '(a, f') := op f in (Ok a, f')
  else (Raise (NaApiError "13001" "connection refused"), f).

#[global] Instance Filer_client : ZapiClient Filer := {|
  create_lun volume_name lun_name _ _ _ :=
    filer_call (fun f =>
      (tt, filer_put ("/vol/" +:+ volume_name +:+ "/" +:+ lun_name)
                     (filer_lun_record volume_name lun_name) f));
  clone_lun volume _ new_name _ _ _ _ :=
    filer_call (fun f =>
      (tt, if filer_clones_visible f
           then filer_put ("/vol/" +:+ fmt_s volume +:+ "/" +:+ new_name)
                          (filer_lun_record (fmt_s volume) new_name) f
           else f));
  get_lun_by_args _ path :=
    filer_call (fun f =>
      (match filer_luns f !! path with Some lun => [lun] | None => [] end, f));
  get_fc_target_wwpns := filer_call (fun f => (filer_wwpns f, f))
|}.

(** A base library for the filer: deleting an untracked volume does
    nothing, deleting a tracked one drops it from the table. *)
#[global] Instance Filer_base : BlockBase Filer := {|
  super_delete_volume volume '(table, f) :=
    match volume !! "name" with
    | None => (Raise (KeyError "name"), (table, f))
    | Some n =>
        match table !! n with
        | None => (Ok tt, (table, f))
        | Some _ =>
            if filer_reachable f then (Ok tt, (delete n table, f))
            else (Raise (NaApiError "13001" "connection refused"), (table, f))
        end
    end
|}.

Definition example_filer : Filer :=
  {| filer_luns := {[ "/vol/P1/L1" := filer_lun_record "P1" "L1" ]};
     filer_wwpns := ["500a098280feeba5"; "500a098290feeba5"];
     filer_reachable := true;
     filer_clones_visible := true |}.

Definition example_filer_lagging : Filer :=
  {| filer_luns := filer_luns example_filer;
     filer_wwpns := filer_wwpns example_filer;
     filer_reachable := true;
     filer_clones_visible := false |}.

Definition example_filer_down : Filer :=
  {| filer_luns := filer_luns example_filer;
     filer_wwpns := filer_wwpns example_filer;
     filer_reachable := false;
     filer_clones_visible := true |}.

Definition example_lun : NetAppLun :=
  {| lun_handle := "vs1:/vol/P1/L1";
     lun_name := "L1";
     lun_size := Some "1073741824";
     lun_metadata := _create_lun_meta (filer_lun_record "P1" "L1") |}.

(** Pool [P1]: 10 GiB in total, 4 GiB and one byte available. *)
Definition example_pool_P1 : NetAppVolume :=
  {| vol_id := {| id_name := Some "P1"; id_vserver := Some "vs1" |};
     vol_space := {[ "size_total_bytes" := 1073741824 * 10;
                     "size_avl_bytes" := 4294967297 ]};
     vol_aggr := {[ "raid_type" := "raid_dp"; "disk_type" := "SSD" ]} |}.

Definition example_pool_P2 : NetAppVolume :=
  {| vol_id := {| id_name := Some "P2"; id_vserver := Some "vs1" |};
     vol_space := {[ "size_total_bytes" := 10742786950;
                     "size_avl_bytes" := 0 ]};
     vol_aggr := {[ "raid_type" := "raid4"; "disk_type" := "SATA" ]} |}.

Definition example_catalog : gmap string VolSet :=
  {[ "all" := {[ vol_id example_pool_P1 := example_pool_P1;
                 vol_id example_pool_P2 := example_pool_P2 ]};
     "mirrored" := {[ vol_id example_pool_P1 := example_pool_P1 ]};
     "dedup" := ∅;
     "compression" := ∅;
     "thin" := {[ vol_id example_pool_P2 := example_pool_P2 ]} ]}.

(** The multiplier [1.0]. *)
Definition example_configuration : Configuration :=
  {| netapp_size_multiplier := float_of_Z 1 |}.

(** The double nearest to [1.2]: [5404319552844595 / 2^52]. *)
Definition example_multiplier_1_2 : spec_float :=
  S754_finite false 5404319552844595 (-52).

(** Pool [P3]: 84442699171627 bytes in total, none available. *)
Definition example_pool_P3 : NetAppVolume :=
  {| vol_id := {| id_name := Some "P3"; id_vserver := Some "vs1" |};
     vol_space := {[ "size_total_bytes" := 84442699171627;
                     "size_avl_bytes" := 0 ]};
     vol_aggr := {[ "raid_type" := "raid_dp"; "disk_type" := "SSD" ]} |}.

(** A driver with the multiplier [1.2] whose catalog holds [P3] only. *)
Definition example_derated_library : Library unit :=
  {| vserver := "vs1";
     configuration := {| netapp_size_multiplier := example_multiplier_1_2 |};
     zapi_client := tt;
     lun_table := ∅;
     ssc_vols :=
       Some {[ "all" := {[ vol_id example_pool_P3 := example_pool_P3 ]};
               "mirrored" := ∅;
               "dedup" := ∅;
               "compression" := ∅;
               "thin" := ∅ ]};
     objects := {[ 0%nat := ∅ ]};
     stale_vols := 0%nat |}.

Definition example_library {B} (client : B) : Library B :=
  {| vserver := "vs1";
     configuration := example_configuration;
     zapi_client := client;
     lun_table := {[ "L1" := example_lun ]};
     ssc_vols := Some example_catalog;
     objects :=
       {[ 7%nat := {[ vol_id example_pool_P2
                        := NetAppVolume_init (Some "P2") (Some "vs1") ]} ]};
     stale_vols := 7%nat |}.

(** The driver right after [do_setup]. *)
Definition example_cold_library {B} (client : B) : Library B :=
  {| vserver := "vs1";
     configuration := example_configuration;
     zapi_client := client;
     lun_table := ∅;
     ssc_vols := None;
     objects := {[ 0%nat := ∅ ]};
     stale_vols := 0%nat |}.

(** ** Further methods of the library *)

(** Exceptions threaded through code that does not touch [self]. *)
#[global] Instance result_ret : MRet result := fun A (a : A) => Ok a.

#[global] Instance result_bind : MBind result :=
  fun A C (k : A → result C) (r : result A) =>
    match r with
    | Ok a => k a
    | Raise e => Raise e
    end.

Section Handles.
Context {B : Type}.

(** [_create_lun_handle(self, metadata)] *)
Definition _create_lun_handle (metadata : Metadata) : M B string :=
  vs ← gets vserver;
  path ← lift (subscript metadata "Path");
  mret (vs +:+ ":" +:+ fmt_s path).
End Handles.

(** The calls [_find_mapped_lun_igroup] makes on [self.zapi_client];
    both give back a list of dictionaries. *)
Class ZapiMapClient (B : Type) := {
  (** [get_igroup_by_initiators(initiator_list)] *)
  get_igroup_by_initiators :
    list string → B → result (list (gmap string string)) * B;
  (** [get_lun_map(path)] *)
  get_lun_map : string → B → result (list (gmap string string)) * B
}.

Section Igroups.
Context {B : Type} `{!ZapiMapClient B}.

(** [self.IGROUP_PREFIX], a constant of the base library. *)
Variable IGROUP_PREFIX : string.

(** The inner loop of [_find_mapped_lun_igroup]:
    [for lun_map in lun_maps: if lun_map['initiator-group'] ==
    igroup_name: return igroup_name, lun_map['lun-id']]; [None] when the
    loop ends without returning. *)
Fixpoint lun_maps_loop (igroup_name : string)
    (lun_maps : list (gmap string string))
  : result (option (string * string)) :=
  match lun_maps with
  | [] => mret None
  | lun_map :: lun_maps =>
      initiator_group ← subscript lun_map "initiator-group";
      if String.eqb initiator_group igroup_name then
        lun_id ← subscript lun_map "lun-id";
        mret (Some (igroup_name, lun_id))
      else lun_maps_loop igroup_name lun_maps
  end.

(** The outer loop: [for igroup in initiator_igroups: ...]. *)
Fixpoint igroups_loop (initiator_igroups lun_maps : list (gmap string string))
  : result (option (string * string)) :=
  match initiator_igroups with
  | [] => mret None
  | igroup :: initiator_igroups =>
      igroup_name ← subscript igroup "initiator-group-name";
      if String.prefix IGROUP_PREFIX igroup_name then
        found ← lun_maps_loop igroup_name lun_maps;
        match found with
        | Some _ => mret found
        | None => igroups_loop initiator_igroups lun_maps
        end
      else igroups_loop initiator_igroups lun_maps
  end.

(** Truth value of a list: the empty list is false. *)
Definition list_truthy {A} (l : list A) : bool :=
  match l with
  | [] => false
  | _ => true
  end.

(** [_find_mapped_lun_igroup(self, path, initiator_list)] *)
Definition _find_mapped_lun_igroup (path : string)
    (initiator_list : list string) : M B (pystr * pystr) :=
  initiator_igroups ← call (get_igroup_by_initiators initiator_list);
  lun_maps ← call (get_lun_map path);
  found ← (if list_truthy initiator_igroups && list_truthy lun_maps
           then lift (igroups_loop initiator_igroups lun_maps)
           else mret None);
  match found with
  | Some (igroup_name, lun_id) => mret (Some igroup_name, Some lun_id)
  | None => mret (None, None)
  end.
End Igroups.

(** [igroup] is an igroup of this driver that [lun_map] maps, under the
    name [igroup_name] and with the LUN id [lun_id]. *)
Definition maps_igroup (IGROUP_PREFIX : string)
    (igroup lun_map : gmap string string) (igroup_name lun_id : string)
  : Prop :=
  igroup !! "initiator-group-name" = Some igroup_name
  ∧ String.prefix IGROUP_PREFIX igroup_name = true
  ∧ lun_map !! "initiator-group" = Some igroup_name
  ∧ lun_map !! "lun-id" = Some lun_id.

(** No map of the list belongs to the igroup [igroup_name]. *)
Definition unmapped (igroup_name : string)
    (lun_maps : list (gmap string string)) : Prop :=
  Forall (fun lun_map =>
            ∃ g, lun_map !! "initiator-group" = Some g ∧ g ≠ igroup_name)
         lun_maps.

(** [lun_map] is the first map of [lun_maps] that belongs to
    [igroup_name], and carries [lun_id]. *)
Definition first_map (igroup_name lun_id : string)
    (lun_maps : list (gmap string string)) : Prop :=
  ∃ before lun_map after,
    lun_maps = before ++ lun_map :: after
    ∧ unmapped igroup_name before
    ∧ lun_map !! "initiator-group" = Some igroup_name
    ∧ lun_map !! "lun-id" = Some lun_id.

(** What the outer loop has passed over: igroups that are not named
    with the prefix, or that no map belongs to. *)
Definition passed_over (IGROUP_PREFIX : string)
    (lun_maps igroups : list (gmap string string)) : Prop :=
  Forall (fun igroup =>
            ∃ n, igroup !! "initiator-group-name" = Some n
                 ∧ (String.prefix IGROUP_PREFIX n = false
                    ∨ unmapped n lun_maps))
         igroups.

(** A backend that answers the two mapping queries from fixed lists. *)
Record MapFiler := {
  filer_igroups : list (gmap string string);
  filer_lun_maps : list (gmap string string)
}.

#[global] Instance MapFiler_client : ZapiMapClient MapFiler := {|
  get_igroup_by_initiators _ f := (Ok (filer_igroups f), f);
  get_lun_map _ f := (Ok (filer_lun_maps f), f)
|}.

Definition example_map_filer : MapFiler :=
  {| filer_igroups :=
       [ {[ "initiator-group-name" := "manual-ig" ]};
         {[ "initiator-group-name" := "openstack-1" ]};
         {[ "initiator-group-name" := "openstack-2" ]} ];
     filer_lun_maps :=
       [ {[ "initiator-group" := "manual-ig"; "lun-id" := "0" ]};
         {[ "initiator-group" := "openstack-2"; "lun-id" := "3" ]};
         {[ "initiator-group" := "openstack-2"; "lun-id" := "4" ]} ] |}.

(** Every element of the set is stored under its own identity. *)
Definition set_wf (s : VolSet) : Prop :=
  ∀ i vol, s !! i = Some vol → vol_id vol = i.

Section Marks.
Context {B : Type}.

(** A run of marks: [_update_stale_vols(volume=vol)] for each [vol] of a
    list, in order. *)
Fixpoint mark_each (vols : list NetAppVolume) : M B unit :=
  match vols with
  | [] => mret tt
  | vol :: vols =>
      _ ← _update_stale_vols (Some vol) false;
      mark_each vols
  end.
End Marks.


(** A pool that has what [_get_pool_stats] reads of it: both byte
    counts, whose quotients under the multiplier are numbers, and both
    aggregate attributes. *)
Definition reportable (multiplier : spec_float) (vol : NetAppVolume) : Prop :=
  (∃ size_total_bytes total,
     vol_space vol !! "size_total_bytes" = Some size_total_bytes
     ∧ gibibytes multiplier size_total_bytes = Ok total
     ∧ is_finite total = true)
  ∧ (∃ size_avl_bytes free,
       vol_space vol !! "size_avl_bytes" = Some size_avl_bytes
       ∧ gibibytes multiplier size_avl_bytes = Ok free
       ∧ is_finite free = true)
  ∧ is_Some (vol_aggr vol !! "raid_type")
  ∧ is_Some (vol_aggr vol !! "disk_type").

(** A catalog with the five sets [_get_pool_stats] reads. *)
Definition catalog_complete (ssc : gmap string VolSet) : Prop :=
  is_Some (ssc !! "all") ∧ is_Some (ssc !! "mirrored")
  ∧ is_Some (ssc !! "dedup") ∧ is_Some (ssc !! "compression")
  ∧ is_Some (ssc !! "thin").


(** ** Publishing the volume statistics *)

(** [data], the dictionary [_update_volume_stats] builds; its keys are
    always the same. *)
Record VolumeStats := {
  volume_backend_name : string;
  vendor_name : string;
  driver_version : string;
  storage_protocol : string;
  pools : list Pool
}.

(** The driver with the attributes of the base library that
    [_update_volume_stats] reads and writes: the names and versions, the
    configured backend name ([configuration.safe_get
    ('volume_backend_name')]) and the published [_stats]. *)
Record Driver (B : Type) := {
  library : Library B;
  driver_name : string;
  driver_protocol : string;
  VERSION : string;
  app_version : string;
  conf_volume_backend_name : pystr;
  _stats : option VolumeStats
}.
Arguments library {B} _.
Arguments driver_name {B} _.
Arguments driver_protocol {B} _.
Arguments VERSION {B} _.
Arguments app_version {B} _.
Arguments conf_volume_backend_name {B} _.
Arguments _stats {B} _.

Definition set_library {B} (l : Library B) (self : Driver B) : Driver B :=
  {| library := l; driver_name := driver_name self;
     driver_protocol := driver_protocol self; VERSION := VERSION self;
     app_version := app_version self;
     conf_volume_backend_name := conf_volume_backend_name self;
     _stats := _stats self |}.

Definition set_stats {B} (data : VolumeStats) (self : Driver B) : Driver B :=
  {| library := library self; driver_name := driver_name self;
     driver_protocol := driver_protocol self; VERSION := VERSION self;
     app_version := app_version self;
     conf_volume_backend_name := conf_volume_backend_name self;
     _stats := Some data |}.

(** Methods that use those attributes. *)
Definition MD (B A : Type) : Type := Driver B → result A * Driver B.

#[global] Instance MD_ret {B} : MRet (MD B) :=
  fun A (a : A) self => (Ok a, self).

#[global] Instance MD_bind {B} : MBind (MD B) :=
  fun A C (k : A → MD B C) (m : MD B A) self =>
    match m self with
    | (Ok a, self') => k a self'
    | (Raise e, self') => (Raise e, self')
    end.

(** a method of the library run on the driver *)
Definition in_library {B A} (m : M B A) : MD B A :=
  fun self => let '(r, l) := m (library self) in (r, set_library l self).

(** read an attribute of the driver *)
Definition reads {B A} (f : Driver B → A) : MD B A :=
  fun self => (Ok (f self), self).

(** set an attribute of the driver *)
Definition writes {B} (f : Driver B → Driver B) : MD B unit :=
  fun self => (Ok tt, f self).

(** What [_update_volume_stats] needs besides the library: a connection
    from the client, [ssc_cmode.refresh_cluster_ssc(backend, na_server,
    vserver, synchronous)], which works on the library it is handed,
    and the client's [provide_ems(backend, driver_name, app_version)]. *)
Class StatsCollaborators (B : Type) := {
  Connection : Type;
  get_connection : B → result Connection * B;
  refresh_cluster_ssc :
    Connection → string → bool → Library B → result unit * Library B;
  provide_ems : string → string → B → result unit * B
}.

(** [x or y] on a [str]-or-[None] and a [str]. *)
Definition or_else (x : pystr) (y : string) : string :=
  match x with
  | Some s => if String.eqb s "" then y else s
  | None => y
  end.

Section VolumeStats.
Context {B : Type} `{!StatsCollaborators B}.

(** [_update_volume_stats(self)] *)
Definition _update_volume_stats : MD B unit :=
  ssc ← in_library (gets ssc_vols);
  let sync := match ssc with None => true | Some _ => false end in
  connection ← in_library (call get_connection);
  vs ← in_library (gets vserver);
  _ ← in_library (refresh_cluster_ssc connection vs sync);
  backend_name ← reads conf_volume_backend_name;
  name ← reads driver_name;
  version ← reads VERSION;
  protocol ← reads driver_protocol;
  pool_stats ← in_library _get_pool_stats;
  let data :=
    {| volume_backend_name := or_else backend_name name;
       vendor_name := "NetApp";
       driver_version := version;
       storage_protocol := protocol;
       pools := pool_stats |} in
  name ← reads driver_name;
  app ← reads app_version;
  _ ← in_library (call (provide_ems name app));
  writes (set_stats data).
End VolumeStats.

(** On the example filer a connection is a token; a synchronous refresh
    scans and installs the example catalog, a deferred one returns at
    once; usage reports are accepted while the filer can be reached. *)
#[global] Instance Filer_stats : StatsCollaborators Filer := {|
  Connection := unit;
  get_connection := filer_call (fun f => (tt, f));
  refresh_cluster_ssc _ _ synchronous :=
    if synchronous then refresh_ssc_vols example_catalog
    else (mret tt : M Filer unit);
  provide_ems _ _ := filer_call (fun f => (tt, f))
|}.

Definition example_driver (l : Library Filer) : Driver Filer :=
  {| library := l;
     driver_name := "NetApp_iSCSI_Cluster_direct";
     driver_protocol := "iSCSI";
     VERSION := "1.0.0";
     app_version := "Icehouse";
     conf_volume_backend_name := None;
     _stats := None |}.


(** * Properties *)

(** ** Running computations *)

Lemma run_bind {B A C} (m : M B A) (k : A → M B C) (self : Library B) :
  (m ≫= k) self =
  match m self with
  | (Ok a, self') => k a self'
  | (Raise e, self') => (Raise e, self')
  end.
Proof. reflexivity. Qed.

Lemma run_bind_Ok {B A C} (m : M B A) (k : A → M B C) self a self' :
  m self = (Ok a, self') → (m ≫= k) self = k a self'.
Proof. intros H. by rewrite run_bind, H. Qed.

Lemma run_bind_Raise {B A C} (m : M B A) (k : A → M B C) self e self' :
  m self = (Raise e, self') → (m ≫= k) self = (Raise e, self').
Proof. intros H. by rewrite run_bind, H. Qed.

(** Unfold the monad down to functions on the state. *)
Create HintDb run discriminated.
#[global] Hint Unfold mbind M_bind mret M_ret mthrow M_throw : run.
#[global] Hint Unfold modify gets call lift super_call : run.

Ltac run := repeat progress (autounfold with run in *; cbn in *).

(** A successful bind went through a successful first step. *)
Lemma run_bind_inv {B A C} (m : M B A) (k : A → M B C) self c self'' :
  (m ≫= k) self = (Ok c, self'') →
  ∃ a self', m self = (Ok a, self') ∧ k a self' = (Ok c, self'').
Proof.
  rewrite run_bind. destruct (m self) as [[a|e] self']; [eauto | discriminate].
Qed.

(** ** Sets of pools *)

Lemma set_in_spec vol s : set_in vol s = true ↔ is_Some (s !! vol_id vol).
Proof. unfold set_in. by rewrite bool_decide_eq_true. Qed.

(** [set_add] is union with a singleton: the members afterwards are the
    old members and everything equal to the added pool. *)
Lemma set_in_add x vol s :
  set_in x (set_add vol s) = set_in x s || bool_decide (vol_id x = vol_id vol).
Proof.
  unfold set_in, set_add.
  destruct (s !! vol_id vol) as [old|] eqn:Hv.
  - destruct (decide (vol_id x = vol_id vol)) as [->|Hne].
    + rewrite (bool_decide_eq_true_2 (is_Some (s !! vol_id vol))); [done|].
      by rewrite Hv.
    + by rewrite (bool_decide_eq_false_2 (vol_id x = vol_id vol)), orb_false_r.
  - destruct (decide (vol_id x = vol_id vol)) as [Heq|Hne].
    + rewrite Heq, lookup_insert_eq, Hv.
      rewrite (bool_decide_eq_true_2 (vol_id vol = vol_id vol)) by done.
      by rewrite orb_true_r, bool_decide_eq_true.
    + rewrite lookup_insert_ne by done.
      by rewrite (bool_decide_eq_false_2 (vol_id x = vol_id vol)), orb_false_r.
Qed.

Lemma set_add_member vol s : set_in vol s = true → set_add vol s = s.
Proof.
  rewrite set_in_spec. intros [old Hold]. unfold set_add. by rewrite Hold.
Qed.

Lemma set_add_idemp vol s : set_add vol (set_add vol s) = set_add vol s.
Proof.
  apply set_add_member. rewrite set_in_add.
  rewrite (bool_decide_eq_true_2 (vol_id vol = vol_id vol)) by done.
  apply orb_true_r.
Qed.

Lemma set_in_empty vol : set_in vol ∅ = false.
Proof.
  unfold set_in. apply bool_decide_eq_false_2.
  rewrite lookup_empty. by intros [? ?].
Qed.

(** ** The stale-pool set *)

Section Objects.
Context {B : Type}.
Implicit Types (self : Library B) (r : ref) (s : VolSet).

Lemma deref_set_object_eq r s self : deref r (set_object r s self) = s.
Proof. unfold deref. cbn. by rewrite lookup_insert_eq. Qed.

Lemma deref_set_object_ne r r' s self :
  r ≠ r' → deref r' (set_object r s self) = deref r' self.
Proof. intros Hne. unfold deref. cbn. by rewrite lookup_insert_ne. Qed.

Lemma stale_set_set_stale_vols s self : stale_set (set_stale_vols s self) = s.
Proof. apply deref_set_object_eq. Qed.

(** Writing back the elements an object already has changes nothing. *)
Lemma set_object_id r s self :
  objects self !! r = Some s → set_object r s self = self.
Proof.
  intros Hr. destruct self. unfold set_object. cbn in *.
  by rewrite insert_id.
Qed.

Lemma set_object_twice r s s' self :
  set_object r s (set_object r s' self) = set_object r s self.
Proof. unfold set_object. cbn. by rewrite insert_insert_eq. Qed.

(** A deep copy is an object that was not there before. *)
Lemma deepcopy_fresh r self :
  ∃ set_copy,
    deepcopy r self = (Ok set_copy, set_object set_copy (deref r self) self)
    ∧ objects self !! set_copy = None.
Proof.
  eexists. split; [reflexivity|].
  apply not_elem_of_dom. apply is_fresh.
Qed.
End Objects.

(** C1. For every driver whose stale set holds [S] and every pool [v]:
    [_update_stale_vols(volume=v, reset=True)] returns a copy of
    [S ∪ {v}], a new set object and not the stale set itself, and leaves
    the stale set empty while the copy keeps its elements;
    [_update_stale_vols(volume=v, reset=False)] returns nothing and leaves
    [S ∪ {v}] in the stale set; [S ∪ {v}] has exactly the members of [S]
    and the pools equal to [v]; marking a pool that is already in [S]
    leaves [S] as it is, and so does marking a pool twice. *)
Theorem update_stale_vols_mark_and_drain {B} (self : Library B)
    (v : NetAppVolume) :
  let S := stale_set self in
  let drained := _update_stale_vols (Some v) true self in
  let marked := _update_stale_vols (Some v) false self in
  (∃ set_copy,
     drained.1 = Ok (Some set_copy)
     ∧ set_copy ≠ stale_vols self
     ∧ objects self !! set_copy = None
     ∧ deref set_copy drained.2 = set_add v S
     ∧ stale_set drained.2 = ∅
     ∧ stale_vols drained.2 = stale_vols self)
  ∧ marked = (Ok None, set_stale_vols (set_add v S) self)
  ∧ stale_set marked.2 = set_add v S
  ∧ (∀ x, set_in x (set_add v S)
          = set_in x S || bool_decide (vol_id x = vol_id v))
  ∧ (set_in v S = true → stale_set marked.2 = S)
  ∧ (set_in v S = true → objects self !! stale_vols self = Some S →
     marked.2 = self)
  ∧ (_update_stale_vols (Some v) false marked.2).2 = marked.2.
Proof.
  intros S drained marked.
  assert (Hmarked : marked = (Ok None, set_stale_vols (set_add v S) self))
    by reflexivity.
  split_and!.
  - destruct (deepcopy_fresh (stale_vols self)
                (set_stale_vols (set_add v S) self))
      as (set_copy & Hcopy & Hfresh).
    cbn in Hfresh. apply lookup_insert_None in Hfresh as [Hfresh Hne].
    exists set_copy.
    assert (Hdrained :
              drained
              = (Ok (Some set_copy),
                 set_stale_vols ∅
                   (set_object set_copy (set_add v S)
                      (set_stale_vols (set_add v S) self)))).
    { subst drained. unfold _update_stale_vols.
      rewrite (run_bind_Ok _ _ self tt (set_stale_vols (set_add v S) self))
        by reflexivity.
      rewrite (run_bind_Ok _ _ _ (stale_vols self) _) by reflexivity.
      rewrite (run_bind_Ok _ _ _ _ _ Hcopy).
      change (deref (stale_vols self) (set_stale_vols ?s self))
        with (stale_set (set_stale_vols s self)).
      by rewrite stale_set_set_stale_vols. }
    rewrite Hdrained. cbn [fst snd]. split_and!; try done.
    + unfold set_stale_vols.
      rewrite deref_set_object_ne by done. apply deref_set_object_eq.
    + apply stale_set_set_stale_vols.
  - exact Hmarked.
  - rewrite Hmarked. apply stale_set_set_stale_vols.
  - intros x. apply set_in_add.
  - intros Hin. rewrite Hmarked. cbn [snd].
    by rewrite stale_set_set_stale_vols, set_add_member.
  - intros Hin Hobj. rewrite Hmarked. cbn [snd].
    rewrite set_add_member by done. by apply set_object_id.
  - rewrite Hmarked. cbn [snd].
    change (_update_stale_vols (Some v) false ?s).2
      with (set_stale_vols (set_add v (stale_set s)) s).
    rewrite stale_set_set_stale_vols, set_add_idemp.
    apply set_object_twice.
Qed.

(** ** LUN lifecycle *)

(** The whole behaviour of [_create_lun], by the outcome of the backend
    call. *)
Lemma create_lun_run {B} `{!ZapiClient B} (self : Library B)
    (volume_name lun_name : string) (size : Z) (metadata : Metadata)
    (qos_policy_group : pystr) :
  _create_lun volume_name lun_name size metadata qos_policy_group self =
  match create_lun volume_name lun_name size metadata qos_policy_group
                   (zapi_client self) with
  | (Ok _, b') =>
      (Ok tt,
       set_stale_vols
         (set_add (NetAppVolume_init (Some volume_name) (Some (vserver self)))
                  (stale_set self))
         (set_zapi_client b' self))
  | (Raise e, b') => (Raise e, set_zapi_client b' self)
  end.
Proof.
  unfold _create_lun. rewrite run_bind. unfold call at 1.
  by destruct (create_lun _ _ _ _ _ _) as [[[]|e] b'].
Qed.

(** C7. [_create_lun] marks the target pool exactly when the backend
    [create_lun] call has returned: then it returns normally and the
    stale set is the old one with the pool added. When the backend call
    raises, the same exception leaves [_create_lun] and the stale set is
    the one from before the call. *)
Theorem create_lun_marks_after_success {B} `{!ZapiClient B}
    (self : Library B) (volume_name lun_name : string) (size : Z)
    (metadata : Metadata) (qos_policy_group : pystr) :
  let backend :=
    create_lun volume_name lun_name size metadata qos_policy_group
               (zapi_client self) in
  let pool := NetAppVolume_init (Some volume_name) (Some (vserver self)) in
  let after :=
    _create_lun volume_name lun_name size metadata qos_policy_group self in
  (backend.1 = Ok tt →
     after = (Ok tt, set_stale_vols (set_add pool (stale_set self))
                       (set_zapi_client backend.2 self))
     ∧ set_in pool (stale_set after.2) = true)
  ∧ (∀ e, backend.1 = Raise e →
     after = (Raise e, set_zapi_client backend.2 self)
     ∧ stale_set after.2 = stale_set self).
Proof.
  intros backend pool after. subst backend pool after.
  rewrite create_lun_run.
  destruct (create_lun _ _ _ _ _ _) as [r b']. cbn [fst snd].
  split.
  - intros ->. split; [done|]. cbn [snd].
    rewrite stale_set_set_stale_vols.
    rewrite set_in_add, bool_decide_eq_true_2 by done. apply orb_true_r.
  - by intros e ->.
Qed.

(** C2. When the source LUN's metadata gives its pool, the backend clone
    call returns, and the lookup of the new path then returns no record,
    [_clone_lun] raises a [VolumeBackendAPIException] whose text carries
    the new LUN name; the LUN table and the stale set are those from
    before the call. *)
Theorem clone_lun_not_found {B} `{!ZapiClient B} (self : Library B)
    (name new_name space_reserved : string)
    (src_block dest_block block_count : Z)
    (lun : NetAppLun) (volume : pystr) (b' b'' : B) :
  lun_table self !! name = Some lun →
  lun_metadata lun !! "Volume" = Some volume →
  clone_lun volume name new_name space_reserved 0 0 0 (zapi_client self)
    = (Ok tt, b') →
  get_lun_by_args (vserver self)
    ("/vol/" +:+ fmt_s volume +:+ "/" +:+ new_name) b' = (Ok [], b'') →
  let after :=
    _clone_lun name new_name space_reserved src_block dest_block block_count
               self in
  after.1 = Raise (VolumeBackendAPIException
                     ("No cloned LUN named " +:+ new_name
                      +:+ " found on the filer"))
  ∧ lun_table after.2 = lun_table self
  ∧ stale_set after.2 = stale_set self
  ∧ after.2 = set_zapi_client b'' self.
Proof.
  intros Hlun Hvol Hclone Hget after. subst after. unfold _clone_lun.
  unfold _get_lun_attr_metadata. run.
  rewrite Hlun. cbn. unfold subscript. rewrite Hvol. cbn.
  rewrite Hclone. cbn. rewrite Hget. by cbn.
Qed.

(** What [_clone_lun] asks of the client does not depend on the block
    range it was given. *)
Lemma clone_lun_block_range_unused {B} `{!ZapiClient B}
    (name new_name space_reserved : string)
    (src_block dest_block block_count : Z) :
  _clone_lun name new_name space_reserved src_block dest_block block_count
  = _clone_lun name new_name space_reserved 0 0 0.
Proof. reflexivity. Qed.

(** C8. Whatever [src_block], [dest_block] and [block_count] the caller
    supplies, [_clone_lun] behaves as with an all-zero block range, and on
    a client that records its calls every clone call it makes carries the
    block range [0, 0, 0]; when the source LUN's metadata gives its pool,
    the clone call is made, for that pool and the two names. *)
Theorem clone_lun_passes_zero_block_range {B} `{!ZapiClient B}
    (self : Library (B * list ZapiCall))
    (name new_name space_reserved : string)
    (src_block dest_block block_count : Z) :
  let after :=
    _clone_lun name new_name space_reserved src_block dest_block block_count
               self in
  after = _clone_lun name new_name space_reserved 0 0 0 self
  ∧ ∃ new_calls,
      calls_of after.2 = calls_of self ++ new_calls
      ∧ Forall zero_block_range new_calls
      ∧ ∀ lun volume,
          lun_table self !! name = Some lun →
          lun_metadata lun !! "Volume" = Some volume →
          head new_calls
          = Some (CloneLun volume name new_name space_reserved 0 0 0).
Proof.
  intros after. subst after. split; [reflexivity|].
  unfold _clone_lun, _get_lun_attr_metadata, calls_of.
  destruct self as [vs conf [b calls] table ssc stale]. run.
  destruct (table !! name) as [lun|] eqn:Hlun; cbn.
  2:{ exists []. rewrite app_nil_r. split_and!; [done|constructor|].
      intros ???. discriminate. }
  unfold subscript at 1.
  destruct (lun_metadata lun !! "Volume") as [volume|] eqn:Hvol; cbn.
  2:{ exists []. rewrite app_nil_r. split_and!; [done|constructor|].
      intros ?? [= <-]. by rewrite Hvol. }
  assert (Hhead : ∀ rest lun' volume',
             Some lun = Some lun' →
             lun_metadata lun' !! "Volume" = Some volume' →
             head (CloneLun volume name new_name space_reserved 0 0 0 :: rest)
             = Some (CloneLun volume' name new_name space_reserved 0 0 0)).
  { intros rest lun' volume' [= <-] Hv. rewrite Hvol in Hv.
    by injection Hv as ->. }
  destruct (clone_lun volume name new_name space_reserved 0 0 0 b)
    as [[[]|e] b'] eqn:Hclone; cbn.
  2:{ eexists [_]. split_and!; [done| |by apply Hhead].
      repeat constructor. }
  destruct (get_lun_by_args vs _ b') as [[luns|e] b''] eqn:Hget; cbn.
  2:{ eexists [_; _]. rewrite <- app_assoc. split_and!; [done| |by apply Hhead].
      repeat constructor. }
  destruct luns as [|lun_0 luns]; cbn.
  - eexists [_; _]. rewrite <- app_assoc. split_and!; [done| |by apply Hhead].
    repeat constructor.
  - eexists [_; _]. rewrite <- app_assoc. split_and!; [done| |by apply Hhead].
    repeat constructor.
Qed.

(** C9. [_get_fc_target_wwpns] gives the same outcome for
    [include_partner=True] and [include_partner=False], and for any two
    values of it: the outcome is that of the client's
    [get_fc_target_wwpns()] on the same backend. *)
Theorem get_fc_target_wwpns_ignores_partner {B} `{!ZapiClient B}
    (self : Library B) (include_partner include_partner' : bool) :
  _get_fc_target_wwpns true self = _get_fc_target_wwpns false self
  ∧ _get_fc_target_wwpns include_partner self
    = _get_fc_target_wwpns include_partner' self
  ∧ (_get_fc_target_wwpns include_partner self).1
    = (get_fc_target_wwpns (zapi_client self)).1
  ∧ zapi_client (_get_fc_target_wwpns include_partner self).2
    = (get_fc_target_wwpns (zapi_client self)).2.
Proof.
  unfold _get_fc_target_wwpns, call.
  destruct (get_fc_target_wwpns (zapi_client self)) as [r b]. by cbn.
Qed.

(** ** Pool statistics *)

Lemma read_only_ret {B A} (a : A) : read_only (mret a : M B A).
Proof. by intros self. Qed.

Lemma read_only_throw {B A} (e : exn) : read_only (mthrow e : M B A).
Proof. by intros self. Qed.

Lemma read_only_gets {B A} (f : Library B → A) : read_only (gets f).
Proof. by intros self. Qed.

Lemma read_only_lift {B A} (r : result A) : read_only (lift r : M B A).
Proof. by intros self. Qed.

Lemma read_only_bind {B A C} (m : M B A) (k : A → M B C) :
  read_only m → (∀ a, read_only (k a)) → read_only (m ≫= k).
Proof.
  intros Hm Hk self. rewrite run_bind. specialize (Hm self).
  destruct (m self) as [[a|e] self']; cbn in Hm; subst self'; [|done].
  apply Hk.
Qed.

Create HintDb read_only.
#[global] Hint Resolve read_only_ret read_only_throw read_only_gets
  read_only_lift : read_only.

Ltac read_only :=
  repeat first
    [ solve [auto with read_only]
    | apply read_only_bind; [|intros ?] ].

Lemma ssc_vols_getitem_read_only {B} key :
  read_only (ssc_vols_getitem key : M B VolSet).
Proof.
  unfold ssc_vols_getitem. apply read_only_bind; [auto with read_only|].
  intros [ssc|]; auto with read_only.
Qed.

#[global] Hint Resolve ssc_vols_getitem_read_only : read_only.

Lemma pool_of_read_only {B} vol : read_only (pool_of vol : M B Pool).
Proof. unfold pool_of. read_only. Qed.

Lemma pools_loop_read_only {B} vols pools :
  read_only (pools_loop vols pools : M B (list Pool)).
Proof.
  revert pools. induction vols as [|vol vols IH]; intros pools; cbn.
  - auto with read_only.
  - apply read_only_bind; [apply pool_of_read_only|]. intros pool. apply IH.
Qed.

Lemma get_pool_stats_read_only {B} :
  read_only (_get_pool_stats : M B (list Pool)).
Proof.
  unfold _get_pool_stats. apply read_only_bind; [auto with read_only|].
  intros ssc. destruct (ssc_vols_falsy ssc); [auto with read_only|].
  apply read_only_bind; [auto with read_only|].
  intros all. apply pools_loop_read_only.
Qed.

(** C10. [_get_pool_stats] leaves the driver as it found it, whether it
    returns or raises: the catalog cache, the stale set, the LUN table
    and every other attribute are the same afterwards. *)
Theorem get_pool_stats_frame {B} (self : Library B) :
  let after := (_get_pool_stats self).2 in
  after = self
  ∧ ssc_vols after = ssc_vols self
  ∧ stale_set after = stale_set self
  ∧ objects after = objects self
  ∧ lun_table after = lun_table self.
Proof.
  intros after. subst after. by rewrite get_pool_stats_read_only.
Qed.

Lemma ssc_vols_getitem_run {B} (self : Library B) ssc key :
  ssc_vols self = Some ssc →
  ssc_vols_getitem key self = (subscript ssc key, self).
Proof.
  intros Hssc. unfold ssc_vols_getitem.
  rewrite (run_bind_Ok _ _ self (ssc_vols self) self) by done.
  by rewrite Hssc.
Qed.

Lemma set_iter_empty : set_iter ∅ = [].
Proof. unfold set_iter. by rewrite map_to_list_empty. Qed.

(** C5. With the catalog cache uninitialized ([None]) or empty (the
    empty dictionary, or a catalog whose set ['all'] is empty),
    [_get_pool_stats] returns the empty list without raising. *)
Theorem get_pool_stats_cold_start {B} (self : Library B) :
  ssc_vols self = None
  ∨ ssc_vols self = Some ∅
  ∨ (∃ ssc, ssc_vols self = Some ssc ∧ ssc !! "all" = Some ∅) →
  _get_pool_stats self = (Ok [], self).
Proof.
  unfold _get_pool_stats.
  rewrite (run_bind_Ok _ _ self (ssc_vols self) self) by done.
  intros [Hnone|[Hempty|(ssc & Hssc & Hall)]].
  - by rewrite Hnone.
  - rewrite Hempty. cbn [ssc_vols_falsy]. by rewrite bool_decide_eq_true_2.
  - rewrite Hssc. cbn [ssc_vols_falsy]. case_bool_decide; [done|].
    rewrite (run_bind_Ok _ _ self ∅ self).
    + by rewrite set_iter_empty.
    + rewrite (ssc_vols_getitem_run self ssc) by done.
      unfold subscript. by rewrite Hall.
Qed.

(** ** What a run of [_get_pool_stats] that returns went through *)

Lemma lift_Ok_inv {B A} (r : result A) (self self' : Library B) a :
  lift r self = (Ok a, self') → r = Ok a ∧ self' = self.
Proof. by intros [= -> ->]. Qed.

Lemma gets_Ok_inv {B A} (f : Library B → A) (self self' : Library B) a :
  gets f self = (Ok a, self') → a = f self ∧ self' = self.
Proof. by intros [= <- <-]. Qed.

Lemma subscript_Ok_inv {V} (d : gmap string V) key v :
  subscript d key = Ok v → d !! key = Some v.
Proof. unfold subscript. by destruct (d !! key); intros [= ->]. Qed.

Lemma ssc_vols_getitem_Ok_inv {B} key (self self' : Library B) vols :
  ssc_vols_getitem key self = (Ok vols, self') →
  ∃ ssc, ssc_vols self = Some ssc ∧ ssc !! key = Some vols ∧ self' = self.
Proof.
  unfold ssc_vols_getitem. intros H.
  apply run_bind_inv in H as (ssc & s & [-> ->]%gets_Ok_inv & H).
  destruct (ssc_vols self) as [ssc|]; [|discriminate].
  apply lift_Ok_inv in H as [H%subscript_Ok_inv ->]. eauto.
Qed.

Lemma pools_loop_Ok {B} (self self' : Library B) vols acc pools :
  pools_loop vols acc self = (Ok pools, self') →
  ∃ new, pools = acc ++ new
         ∧ Forall2 (fun vol pool => pool_of vol self = (Ok pool, self))
                   vols new.
Proof.
  revert acc. induction vols as [|vol vols IH]; intros acc; cbn.
  - intros [= <- <-]. exists []. by rewrite app_nil_r.
  - intros H. apply run_bind_inv in H as (pool & s & Hpool & H).
    assert (s = self) as ->.
    { pose proof (pool_of_read_only vol self) as Hro.
      by rewrite Hpool in Hro. }
    apply IH in H as (new & -> & Hall).
    exists (pool :: new). rewrite <- app_assoc. split; [done|].
    by constructor.
Qed.

Lemma get_pool_stats_Ok {B} (self self' : Library B) pools :
  _get_pool_stats self = (Ok pools, self') →
  Forall2 (fun vol pool => pool_of vol self = (Ok pool, self))
          (catalog_pools self) pools.
Proof.
  unfold _get_pool_stats, catalog_pools. intros H.
  apply run_bind_inv in H as (ssc & s & [-> ->]%gets_Ok_inv & H).
  destruct (ssc_vols self) as [ssc|] eqn:Hssc; cbn [ssc_vols_falsy] in H.
  - case_bool_decide as Hempty.
    + injection H as <- <-. subst ssc. rewrite lookup_empty. constructor.
    + apply run_bind_inv in H as (all & s & Hall & H).
      apply ssc_vols_getitem_Ok_inv in Hall as (ssc' & Hssc' & Hall & ->).
      rewrite Hssc in Hssc'. injection Hssc' as <-. rewrite Hall. cbn.
      by apply pools_loop_Ok in H as (new & -> & H).
  - injection H as <- <-. constructor.
Qed.

(** ** Rounding down *)

Lemma abs_cond_Zopp s z : Z.abs (cond_Zopp s z) = Z.abs z.
Proof. destruct s; cbn; lia. Qed.

Lemma cond_Zopp_mul_nonneg s a b :
  0 <= a → 0 <= b → 0 <= cond_Zopp s a * cond_Zopp s b.
Proof. destruct s; cbn; nia. Qed.

(** [round_down] to ['0.01'] truncates: the decimal has two places, is
    no further from zero than the double, on the same side, and less
    than a hundredth away. *)
Lemma round_down_truncates x d :
  round_down x "0.01" = Ok d → rounded_down_2 (float_value x) d.
Proof.
  unfold round_down. change (decimal_places "0.01") with 2%nat.
  change (10 ^ Z.of_nat 2) with 100.
  destruct x as [s|s| |s m e]; try discriminate.
  - intros [= <-]. by cbv.
  - intros [= <-]. unfold rounded_down_2, decimal_value, float_value.
    cbn [dec_places dec_unscaled].
    change (Pos.of_nat (10 ^ 2)) with 100%positive.
    destruct (Z.leb_spec 0 e) as [He|He].
    + split; [done|]. unfold Qle, Qlt, Qabs, Qplus, Qmult, inject_Z.
      cbn [Qnum Qden]. rewrite !abs_cond_Zopp.
      assert (0 < 2 ^ e) by (apply Z.pow_pos_nonneg; lia).
      split_and!.
      * rewrite !Z.abs_eq by nia. nia.
      * rewrite !Z.abs_eq by nia. nia.
      * rewrite Z.mul_1_r.
        apply cond_Zopp_mul_nonneg; nia.
    + split; [done|]. unfold Qle, Qlt, Qabs, Qplus, Qmult.
      cbn [Qnum Qden]. rewrite !abs_cond_Zopp.
      rewrite Pos2Z.inj_pow, Z2Pos.id by lia.
      assert (Hpow : 0 < 2 ^ (- e)) by (apply Z.pow_pos_nonneg; lia).
      pose proof (Z.mul_div_le (Z.pos m * 100) _ Hpow) as Hle.
      pose proof (Z.mul_succ_div_gt (Z.pos m * 100) _ Hpow) as Hgt.
      assert (Hq : 0 <= Z.pos m * 100 / 2 ^ (- e))
        by (apply Z.div_pos; lia).
      set (q := Z.pos m * 100 / 2 ^ (- e)) in *.
      set (p := 2 ^ (- e)) in *.
      split_and!.
      * rewrite !Z.abs_eq by lia. nia.
      * rewrite !Z.abs_eq by lia. nia.
      * rewrite Z.mul_1_r.
        apply cond_Zopp_mul_nonneg; lia.
Qed.

Lemma paired_text_type_lower vol (s : VolSet) :
  paired (text_type_lower (set_in vol s))
         (text_type_lower (negb (set_in vol s)))
         (is_Some (s !! vol_id vol)).
Proof.
  exists (set_in vol s). split_and!.
  - by destruct (set_in vol s).
  - by destruct (set_in vol s).
  - apply set_in_spec.
Qed.

Lemma float_Ok_inv n x :
  float n = Ok x → x = float_of_Z n ∧ is_finite x = true.
Proof.
  unfold float. destruct (is_finite (float_of_Z n)) eqn:Hfin; [|discriminate].
  by intros [= <-].
Qed.

Lemma gibibytes_run multiplier bytes b x total :
  float bytes = Ok b →
  truediv b multiplier = Ok x →
  truediv x (float_of_Z units_Gi) = Ok total →
  gibibytes multiplier bytes = Ok total.
Proof.
  unfold gibibytes. intros [-> _]%float_Ok_inv. by intros -> ->.
Qed.

(** Take the first step off a run that returned. *)
Ltac first_step H :=
  let s := fresh "s" in
  let Ha := fresh "Hstep" in
  apply run_bind_inv in H as (? & s & Ha & H);
  first
    [ apply gets_Ok_inv in Ha as [-> ->]
    | apply ssc_vols_getitem_Ok_inv in Ha as (? & ? & Ha & ->)
    | apply lift_Ok_inv in Ha as [Ha ->] ].

(** One entry of the statistics, read off the run that made it. *)
Lemma pool_of_Ok {B} (self self' : Library B) vol pool :
  pool_of vol self = (Ok pool, self') →
  pool_name pool = id_name (vol_id vol)
  ∧ QoS_support pool = false
  ∧ reserved_percentage pool = 0
  ∧ capacity_of (netapp_size_multiplier (configuration self)) vol pool
  ∧ vol_aggr vol !! "raid_type" = Some (netapp_raid_type pool)
  ∧ vol_aggr vol !! "disk_type" = Some (netapp_disk_type pool)
  ∧ ∃ ssc, ssc_vols self = Some ssc ∧ tags_of ssc vol pool.
Proof.
  unfold pool_of. intros H.
  do 18 first_step H.
  injection H as <- <-. cbn.
  repeat match goal with
         | H : subscript _ _ = Ok _ |- _ => apply subscript_Ok_inv in H
         | H1 : ssc_vols self = Some ?a, H2 : ssc_vols self = Some ?b |- _ =>
             rewrite H1 in H2; injection H2 as <-
         end.
  split_and!; try done.
  - eexists _, _, _, _. cbn.
    split_and!; eauto using gibibytes_run, round_down_truncates.
  - eexists. split; [done|]. eexists _, _, _, _. cbn.
    split_and!; eauto using paired_text_type_lower.
Qed.

(** ** Doubles that are exact

    A byte count below [2^53] is a double, and dividing a double by
    [1.0] or by [2^30] only moves its exponent. *)

Lemma Zpos_iter_xO p k : Z.pos (Pos.iter xO p k) = Z.pos p * 2 ^ Z.pos k.
Proof.
  revert p. induction k as [|k IH] using Pos.peano_ind; intros p.
  - cbn. lia.
  - rewrite Pos.iter_succ, Pos2Z.inj_xO, IH, Pos2Z.inj_succ.
    rewrite Z.pow_succ_r by lia. lia.
Qed.

Lemma digits2_pos_iter_xO p k :
  digits2_pos (Pos.iter xO p k) = (digits2_pos p + k)%positive.
Proof.
  induction k as [|k IH] using Pos.peano_ind.
  - cbn. lia.
  - rewrite Pos.iter_succ. cbn [digits2_pos]. rewrite IH. lia.
Qed.

Lemma digits2_pos_lower p : 2 ^ (Z.pos (digits2_pos p) - 1) <= Z.pos p.
Proof.
  induction p as [p IH|p IH|]; cbn [digits2_pos].
  - rewrite Pos2Z.inj_succ.
    replace (Z.succ (Z.pos (digits2_pos p)) - 1)
      with (Z.succ (Z.pos (digits2_pos p) - 1)) by lia.
    rewrite Z.pow_succ_r by lia. lia.
  - rewrite Pos2Z.inj_succ.
    replace (Z.succ (Z.pos (digits2_pos p)) - 1)
      with (Z.succ (Z.pos (digits2_pos p) - 1)) by lia.
    rewrite Z.pow_succ_r by lia. lia.
  - cbn. lia.
Qed.

Lemma binary_round_aux_normal s m e :
  Z.pos (digits2_pos m) = 53 → -1074 <= e <= 971 →
  binary_round_aux prec emax s (Z.pos m) e loc_Exact = S754_finite s m e.
Proof.
  intros Hd He. unfold binary_round_aux, shr_fexp. cbn [Zdigits2].
  rewrite Hd.
  assert (fexp prec emax (53 + e) - e = 0) as ->.
  { unfold fexp, SpecFloat.emin, prec, emax. lia. }
  cbn [shr shr_record_of_loc loc_of_shr_record shr_m round_nearest_even
       Zdigits2].
  rewrite Hd.
  assert (fexp prec emax (53 + e) - e = 0) as ->.
  { unfold fexp, SpecFloat.emin, prec, emax. lia. }
  cbn [shr shr_m].
  destruct (Z.leb_spec e (emax - prec)) as [|Hgt]; [done|].
  unfold emax, prec in Hgt. lia.
Qed.

Lemma float_of_Z_exact n :
  0 < n < 2 ^ 53 →
  ∃ m e, float_of_Z n = S754_finite false m e
         ∧ Z.pos (digits2_pos m) = 53
         ∧ -52 <= e <= 0
         ∧ Z.pos m = n * 2 ^ (- e).
Proof.
  intros [Hpos Hlt]. destruct n as [|p|p]; try lia.
  unfold float_of_Z, binary_normalize, binary_round, shl_align.
  pose proof (digits2_pos_lower p) as Hlow.
  assert (Hd : Z.pos (digits2_pos p) <= 53).
  { destruct (Z.le_gt_cases (Z.pos (digits2_pos p)) 53) as [|Hgt]; [done|].
    assert (2 ^ 53 <= 2 ^ (Z.pos (digits2_pos p) - 1))
      by (apply Z.pow_le_mono_r; lia).
    lia. }
  assert (fexp prec emax (Z.pos (digits2_pos p) + 0) - 0
          = Z.pos (digits2_pos p) - 53) as ->.
  { unfold fexp, SpecFloat.emin, prec, emax. lia. }
  assert (fexp prec emax (Z.pos (digits2_pos p) + 0)
          = Z.pos (digits2_pos p) - 53) as ->.
  { unfold fexp, SpecFloat.emin, prec, emax. lia. }
  destruct (Z.pos (digits2_pos p) - 53) as [|k|k] eqn:Hk; try lia.
  - exists p, 0. rewrite binary_round_aux_normal by lia.
    split_and!; try lia. done.
  - exists (Pos.iter xO p k), (Z.neg k).
    assert (Hdk : Z.pos (digits2_pos (Pos.iter xO p k)) = 53).
    { rewrite digits2_pos_iter_xO. lia. }
    rewrite binary_round_aux_normal by lia.
    split_and!; try lia; [done|].
    rewrite Zpos_iter_xO. done.
Qed.

Lemma SFdiv_pow2 s m e e2 :
  Z.pos (digits2_pos m) = 53 →
  -1073 <= e - e2 - 52 <= 971 →
  SFdiv prec emax (S754_finite s m e) (S754_finite false 4503599627370496%positive e2)
  = S754_finite s m (e - e2 - 52).
Proof.
  intros Hd He. unfold SFdiv, SFdiv_core_binary. cbn [Zdigits2].
  rewrite Hd. change (Z.pos (digits2_pos 4503599627370496%positive)) with 53.
  assert (Z.min (fexp prec emax (53 + e - (53 + e2))) (e - e2)
          = e - e2 - 53) as ->.
  { unfold fexp, SpecFloat.emin, prec, emax. lia. }
  replace (e - e2 - (e - e2 - 53)) with 53 by lia.
  rewrite Z.shiftl_mul_pow2 by lia.
  pose proof (Z.div_eucl_eq (Z.pos m * 2 ^ 53) (Z.pos 4503599627370496%positive)) as Heq.
  assert (Hq : Z.pos m * 2 ^ 53 / Z.pos 4503599627370496%positive = Z.pos m~0).
  { replace (Z.pos m * 2 ^ 53) with (Z.pos m~0 * Z.pos 4503599627370496%positive)
      by lia.
    apply Z.div_mul. done. }
  assert (Hr : (Z.pos m * 2 ^ 53) mod Z.pos 4503599627370496%positive = 0).
  { replace (Z.pos m * 2 ^ 53) with (Z.pos m~0 * Z.pos 4503599627370496%positive)
      by lia.
    apply Z.mod_mul. done. }
  unfold Z.div in Hq. unfold Z.modulo in Hr.
  destruct (Z.div_eucl (Z.pos m * 2 ^ 53) (Z.pos 4503599627370496%positive)) as [q r].
  cbn [fst snd] in Hq, Hr. subst q r.
  change (new_location (Z.pos 4503599627370496%positive) 0) with loc_Exact.
  rewrite xorb_false_r.
  unfold binary_round_aux, shr_fexp.
  cbn [Zdigits2 digits2_pos]. rewrite Pos2Z.inj_succ, Hd.
  assert (fexp prec emax (Z.succ 53 + (e - e2 - 53)) - (e - e2 - 53) = 1)
    as ->.
  { unfold fexp, SpecFloat.emin, prec, emax. lia. }
  cbn [shr shr_record_of_loc SpecFloat.iter_pos shr_1 orb loc_of_shr_record shr_m
       round_nearest_even Zdigits2].
  rewrite Hd.
  assert (fexp prec emax (53 + (e - e2 - 53 + 1)) - (e - e2 - 53 + 1) = 0)
    as ->.
  { unfold fexp, SpecFloat.emin, prec, emax. lia. }
  cbn [shr shr_m].
  replace (e - e2 - 53 + 1) with (e - e2 - 52) by lia.
  destruct (Z.leb_spec (e - e2 - 52) (emax - prec)) as [|Hgt]; [done|].
  unfold emax, prec in Hgt. lia.
Qed.

(** A byte count below [2^53] converts. *)
Lemma float_exact n : 0 <= n < 2 ^ 53 → float n = Ok (float_of_Z n).
Proof.
  intros [Hpos Hlt]. destruct (Z.eq_dec n 0) as [->|Hne]; [reflexivity|].
  destruct (float_of_Z_exact n) as (m & e & Hf & _); [lia|].
  unfold float. by rewrite Hf.
Qed.

Lemma float_of_Z_units_Gi :
  float_of_Z units_Gi = S754_finite false 4503599627370496 (-22).
Proof. vm_compute. reflexivity. Qed.

(** With the multiplier [1.0] the quotient of a byte count below [2^53]
    is exact, and so are its hundredths. *)
Lemma gibibytes_one_exact n :
  0 <= n < 2 ^ 53 →
  ∃ total,
    gibibytes float_one n = Ok total
    ∧ round_down total "0.01"
      = Ok {| dec_unscaled := n * 100 / 2 ^ 30; dec_places := 2 |}.
Proof.
  intros [Hpos Hlt]. destruct (Z.eq_dec n 0) as [->|Hne].
  { eexists. split; vm_compute; reflexivity. }
  destruct (float_of_Z_exact n) as (m & e & Hf & Hd & He & Hm); [lia|].
  unfold gibibytes. rewrite Hf, float_of_Z_units_Gi.
  unfold truediv, float_one. cbn [is_zero].
  rewrite !SFdiv_pow2 by lia.
  eexists. split; [reflexivity|].
  unfold round_down. change (decimal_places "0.01") with 2%nat.
  change (10 ^ Z.of_nat 2) with 100.
  destruct (Z.leb_spec 0 (e - -52 - 52 - -22 - 52)) as [Hle|_]; [lia|].
  cbn [cond_Zopp]. do 2 f_equal.
  replace (- (e - -52 - 52 - -22 - 52)) with (- e + 30) by lia.
  rewrite Z.pow_add_r by lia. rewrite Hm.
  replace (n * 2 ^ (- e) * 100) with (2 ^ (- e) * (n * 100)) by lia.
  apply Z.div_mul_cancel_l; [|lia].
  apply Z.pow_nonzero; lia.
Qed.

Lemma exact_hundredths_one n :
  0 <= n → exact_hundredths (float_value float_one) n = n * 100 / 2 ^ 30.
Proof.
  intros Hn.
  change (exact_hundredths (float_value float_one) n)
    with (Z.quot (n * 4503599627370496 * 1 * 100)
                 4835703278458516698824704).
  rewrite Z.quot_div_nonneg by lia.
  replace (n * 4503599627370496 * 1 * 100)
    with (n * 100 * 4503599627370496) by lia.
  change 4835703278458516698824704
    with (2 ^ 30 * 4503599627370496).
  apply Z.div_mul_cancel_r; lia.
Qed.

(** C3. In every list of entries [_get_pool_stats] returns, the entry of
    each pool of the catalog carries on each axis a pair of tags that
    spell booleans, the negative tag the negation of the positive one,
    and the positive tag is true exactly when that classification set of
    the catalog cache holds a pool with this pool's identity: mirrored
    and unmirrored, dedup and nodedup, compression and nocompression,
    thin and thick provisioned. *)
Theorem pool_stats_paired_tags {B} (self self' : Library B) pools ssc :
  _get_pool_stats self = (Ok pools, self') →
  ssc_vols self = Some ssc →
  Forall2 (fun vol pool =>
             pool_name pool = id_name (vol_id vol) ∧ tags_of ssc vol pool)
          (catalog_pools self) pools.
Proof.
  intros Hrun Hssc. apply get_pool_stats_Ok in Hrun.
  eapply Forall2_impl; [exact Hrun|]. cbn.
  intros vol pool (Hname & _ & _ & _ & _ & _ & ssc' & Hssc' & Htags)%pool_of_Ok.
  rewrite Hssc in Hssc'. by injection Hssc' as <-.
Qed.


(** 84442699171627 bytes under the multiplier [1.2]: the quotient by the
    multiplier and by [2^30] is a little below 65536.16 and is cut off
    to 65536.15, for the double [1.2] as for the fraction [12/10]; the
    double division rounds it up to 65536.16, and that is the entry. *)
Lemma pool_stats_capacity_above_quotient :
  ∃ pool,
    _get_pool_stats example_derated_library
    = (Ok [pool], example_derated_library)
    ∧ catalog_pools example_derated_library = [example_pool_P3]
    ∧ total_capacity_gb pool
      = {| dec_unscaled := 6553616; dec_places := 2 |}
    ∧ exact_hundredths (float_value example_multiplier_1_2) 84442699171627
      = 6553615
    ∧ exact_hundredths (12 # 10) 84442699171627 = 6553615
    ∧ (inject_Z 84442699171627 / float_value example_multiplier_1_2
       / inject_Z units_Gi
       < decimal_value (total_capacity_gb pool))%Q.
Proof. eexists. split_and!; vm_compute; reflexivity. Qed.

(** ** Deleting a volume *)

(** The whole behaviour of [delete_volume] on a volume that has a name,
    by the outcome of the base deletion. *)
Lemma delete_volume_run {B} `{!BlockBase B} (self : Library B)
    (volume : CinderVolume) (volume_name : string) :
  volume !! "name" = Some volume_name →
  let netapp_vol :=
    from_option (fun lun => get_metadata_property lun "Volume") None
                (lun_table self !! volume_name) in
  let base := super_delete_volume volume (lun_table self, zapi_client self) in
  let deleted := set_zapi_client base.2.2 (set_lun_table base.2.1 self) in
  delete_volume volume self =
  match base.1 with
  | Ok _ =>
      if truthy netapp_vol then
        (Ok tt,
         set_stale_vols
           (set_add (NetAppVolume_init netapp_vol (Some (vserver self)))
                    (stale_set self))
           deleted)
      else (Ok tt, deleted)
  | Raise e => (Raise e, deleted)
  end.
Proof.
  intros Hname netapp_vol base deleted. subst netapp_vol base deleted.
  unfold delete_volume.
  rewrite (run_bind_Ok _ _ self volume_name self)
    by (unfold lift, subscript; by rewrite Hname).
  rewrite (run_bind_Ok _ _ self (lun_table self !! volume_name) self) by done.
  rewrite run_bind. unfold super_call at 1.
  destruct (super_delete_volume _ _) as [[[]|e] [table' b']]; cbn [fst snd];
    [|done].
  destruct (lun_table self !! volume_name) as [lun|]; cbn [from_option].
  - by destruct (truthy (get_metadata_property lun "Volume")).
  - done.
Qed.


(** ** The methods on the example filer *)

(** A clone asked for with the block range [5, 6, 7] reaches the filer
    with [0, 0, 0] and is then looked up under its new path. *)
Example clone_lun_calls :
  calls_of (_clone_lun "L1" "L2" "true" 5 6 7
              (example_library (example_filer, []))).2
  = [ CloneLun (Some "P1") "L1" "L2" "true" 0 0 0;
      GetLunByArgs "vs1" "/vol/P1/L2" ].
Proof. vm_compute. reflexivity. Qed.

(** The clone that is found is registered under its handle and its pool
    is marked. *)
Example clone_lun_registers :
  let after := (_clone_lun "L1" "L2" "true" 0 0 0
                  (example_library example_filer)).2 in
  lun_handle <$> lun_table after !! "L2" = Some "vs1:/vol/P1/L2"
  ∧ set_in (NetAppVolume_init (Some "P1") (Some "vs1")) (stale_set after)
    = true.
Proof. split; vm_compute; reflexivity. Qed.

(** 10742786950 bytes are a little more than 10.005 GiB and are reported
    as [10.00]; with the multiplier [1.2], twelve gibibytes are reported
    as [10.00] as well. *)
Example round_down_10_005 :
  match gibibytes (float_of_Z 1) 10742786950 with
  | Ok x => round_down x "0.01"
  | Raise e => Raise e
  end = Ok {| dec_unscaled := 1000; dec_places := 2 |}
  ∧ match gibibytes (SFdiv prec emax (float_of_Z 12) (float_of_Z 10))
                    (12 * 2 ^ 30) with
    | Ok x => round_down x "0.01"
    | Raise e => Raise e
    end = Ok {| dec_unscaled := 1000; dec_places := 2 |}.
Proof. split; vm_compute; reflexivity. Qed.

(** A multiplier of zero makes the statistics raise, and still nothing
    in the driver changes. *)
Example pool_stats_zero_multiplier :
  let self :=
    {| vserver := "vs1";
       configuration := {| netapp_size_multiplier := S754_zero false |};
       zapi_client := tt;
       lun_table := ∅;
       ssc_vols := Some example_catalog;
       objects := {[ 0%nat := ∅ ]};
       stale_vols := 0%nat |} in
  _get_pool_stats self = (Raise ZeroDivisionError, self).
Proof. vm_compute. reflexivity. Qed.

(** ** The properties on the example filer *)

(** Marking [P1] on a driver whose stale set holds [P2] and draining:
    the copy is a new object holding both, the stale set is empty. [P2]
    is marked already, and marking it again changes nothing. *)
Lemma update_stale_vols_mark_and_drain_witness :
  let self := example_library tt in
  let drained := _update_stale_vols (Some example_pool_P1) true self in
  (∃ set_copy,
     drained.1 = Ok (Some set_copy)
     ∧ set_copy ≠ stale_vols self
     ∧ deref set_copy drained.2 = set_add example_pool_P1 (stale_set self)
     ∧ stale_set drained.2 = ∅)
  ∧ set_in example_pool_P2 (stale_set self) = true
  ∧ (_update_stale_vols (Some example_pool_P2) false self).2 = self.
Proof.
  pose proof (update_stale_vols_mark_and_drain (example_library tt)
                example_pool_P1) as (Hdrain & _).
  pose proof (update_stale_vols_mark_and_drain (example_library tt)
                example_pool_P2) as (_ & _ & _ & _ & _ & Hagain & _).
  assert (Hin : set_in example_pool_P2 (stale_set (example_library tt))
                = true) by (vm_compute; reflexivity).
  split.
  - destruct Hdrain as (set_copy & Hret & Hne & _ & Hcopy & Hempty & _).
    exists set_copy. split; [exact Hret|]. split; [exact Hne|].
    split; [exact Hcopy|exact Hempty].
  - split; [exact Hin|]. apply (Hagain Hin). vm_compute. reflexivity.
Defined.

(** Cloning [L1] to [L2] on a filer where the clone is not visible yet. *)
Lemma clone_lun_not_found_witness :
  let self := example_library example_filer_lagging in
  let after := _clone_lun "L1" "L2" "true" 0 8 16 self in
  lun_table self !! "L1" = Some example_lun
  ∧ after.1 = Raise (VolumeBackendAPIException
                       "No cloned LUN named L2 found on the filer")
  ∧ lun_table after.2 = lun_table self
  ∧ stale_set after.2 = stale_set self.
Proof.
  split; [vm_compute; reflexivity|].
  destruct (clone_lun_not_found (example_library example_filer_lagging)
              "L1" "L2" "true" 0 8 16 example_lun (Some "P1")
              example_filer_lagging example_filer_lagging)
    as (Hraise & Htable & Hstale & _);
    [vm_compute; reflexivity ..|].
  split; [exact Hraise|]. split; [exact Htable|exact Hstale].
Defined.

(** The statistics of the example catalog carry paired tags. *)
Lemma pool_stats_paired_tags_witness :
  let self := example_library tt in
  ∃ pools,
    _get_pool_stats self = (Ok pools, self)
    ∧ ssc_vols self = Some example_catalog
    ∧ Forall2 (fun vol pool =>
                 pool_name pool = id_name (vol_id vol)
                 ∧ tags_of example_catalog vol pool)
              (catalog_pools self) pools.
Proof.
  assert (Hrun : ∃ pools,
             _get_pool_stats (example_library tt)
             = (Ok pools, example_library tt))
    by (eexists; vm_compute; reflexivity).
  destruct Hrun as [pools Hrun]. exists pools.
  split; [exact Hrun|]. split; [reflexivity|].
  apply (pool_stats_paired_tags (example_library tt) (example_library tt)
           pools example_catalog Hrun eq_refl).
Defined.


(** Right after [do_setup] there is no catalog and no pool. *)
Lemma get_pool_stats_cold_start_witness :
  ssc_vols (example_cold_library tt) = None
  ∧ _get_pool_stats (example_cold_library tt)
    = (Ok [], example_cold_library tt).
Proof.
  split; [reflexivity|].
  apply (get_pool_stats_cold_start (example_cold_library tt)).
  left. reflexivity.
Defined.

(** The base library of the example filer returns on untracked names. *)
Lemma Filer_base_spec : BlockBaseSpec Filer.
Proof.
  constructor. intros volume volume_name table f Hname Hnone.
  cbn. by rewrite Hname, Hnone.
Qed.


(** Creating [L3] in [P1] marks [P1] on a reachable filer; on an
    unreachable one the filer's error comes back and nothing is marked. *)
Lemma create_lun_marks_after_success_witness :
  let P1 := NetAppVolume_init (Some "P1") (Some "vs1") in
  (let after := _create_lun "P1" "L3" 1073741824 ∅ None
                            (example_library example_filer) in
   after.1 = Ok tt ∧ set_in P1 (stale_set after.2) = true)
  ∧ (let after := _create_lun "P1" "L3" 1073741824 ∅ None
                              (example_library example_filer_down) in
     after.1 = Raise (NaApiError "13001" "connection refused")
     ∧ stale_set after.2
       = stale_set (example_library example_filer_down)).
Proof.
  pose proof (create_lun_marks_after_success (example_library example_filer)
                "P1" "L3" 1073741824 ∅ None) as (Hok & _).
  destruct Hok as (Hrun & Hin); [vm_compute; reflexivity|].
  pose proof (create_lun_marks_after_success
                (example_library example_filer_down)
                "P1" "L3" 1073741824 ∅ None) as (_ & Hraise).
  destruct (Hraise (NaApiError "13001" "connection refused"))
    as (Hrun' & Hstale'); [vm_compute; reflexivity|].
  split.
  - split; [by rewrite Hrun|exact Hin].
  - split; [by rewrite Hrun'|exact Hstale'].
Defined.

(** * Further properties *)

(** ** Looking up the igroup a LUN is mapped to *)

Lemma run_result_bind {A C} (r : result A) (k : A → result C) :
  r ≫= k = match r with Ok a => k a | Raise e => Raise e end.
Proof. reflexivity. Qed.

Lemma lun_maps_loop_inv igroup_name lun_maps found :
  lun_maps_loop igroup_name lun_maps = Ok found →
  match found with
  | Some (n, lun_id) => n = igroup_name ∧ first_map igroup_name lun_id lun_maps
  | None => unmapped igroup_name lun_maps
  end.
Proof.
  revert found. induction lun_maps as [|lun_map lun_maps IH]; intros found.
  - intros [= <-]. constructor.
  - cbn [lun_maps_loop]. rewrite run_result_bind. unfold subscript at 1.
    destruct (lun_map !! "initiator-group") as [g|] eqn:Hg; [|discriminate].
    destruct (String.eqb_spec g igroup_name) as [->|Hne].
    + rewrite run_result_bind. unfold subscript.
      destruct (lun_map !! "lun-id") as [lun_id|] eqn:Hid; [|discriminate].
      intros [= <-]. split; [done|].
      exists [], lun_map, lun_maps. split_and!; [done|constructor|done..].
    + intros Hrest. specialize (IH _ Hrest).
      destruct found as [[n lun_id]|].
      * destruct IH as (-> & before & m & after & -> & Hbefore & Hm & Hid).
        split; [done|]. exists (lun_map :: before), m, after.
        split_and!; [done| |done..]. constructor; eauto.
      * constructor; eauto.
Qed.

Lemma unmapped_no_map igroup_name lun_maps lun_map :
  unmapped igroup_name lun_maps → lun_map ∈ lun_maps →
  lun_map !! "initiator-group" ≠ Some igroup_name.
Proof.
  intros Hun Hin. eapply Forall_forall in Hun as (g & Hg & Hne); [|done].
  rewrite Hg. by intros [= ->].
Qed.

Lemma igroups_loop_inv IGROUP_PREFIX igroups lun_maps found :
  igroups_loop IGROUP_PREFIX igroups lun_maps = Ok found →
  match found with
  | Some (igroup_name, lun_id) =>
      ∃ before igroup after,
        igroups = before ++ igroup :: after
        ∧ passed_over IGROUP_PREFIX lun_maps before
        ∧ igroup !! "initiator-group-name" = Some igroup_name
        ∧ String.prefix IGROUP_PREFIX igroup_name = true
        ∧ first_map igroup_name lun_id lun_maps
  | None => passed_over IGROUP_PREFIX lun_maps igroups
  end.
Proof.
  revert found. induction igroups as [|igroup igroups IH]; intros found.
  - intros [= <-]. constructor.
  - cbn [igroups_loop]. rewrite run_result_bind. unfold subscript at 1.
    destruct (igroup !! "initiator-group-name") as [n|] eqn:Hn;
      [|discriminate].
    assert (Hskip :
              (String.prefix IGROUP_PREFIX n = false ∨ unmapped n lun_maps) →
              igroups_loop IGROUP_PREFIX igroups lun_maps = Ok found →
              match found with
              | Some (igroup_name, lun_id) =>
                  ∃ before g after,
                    igroup :: igroups = before ++ g :: after
                    ∧ passed_over IGROUP_PREFIX lun_maps before
                    ∧ g !! "initiator-group-name" = Some igroup_name
                    ∧ String.prefix IGROUP_PREFIX igroup_name = true
                    ∧ first_map igroup_name lun_id lun_maps
              | None => passed_over IGROUP_PREFIX lun_maps (igroup :: igroups)
              end).
    { intros Hwhy Hrest. specialize (IH _ Hrest).
      destruct found as [[igroup_name lun_id]|].
      - destruct IH as (before & g & after & -> & Hbefore & Hg & Hp & Hfirst).
        exists (igroup :: before), g, after.
        split_and!; [done| |done..]. constructor; eauto.
      - constructor; eauto. }
    destruct (String.prefix IGROUP_PREFIX n) eqn:Hprefix;
      [|apply Hskip; by left].
    rewrite run_result_bind.
    destruct (lun_maps_loop n lun_maps) as [inner|e] eqn:Hinner;
      [|discriminate].
    apply lun_maps_loop_inv in Hinner.
    destruct inner as [[n' lun_id]|].
    + destruct Hinner as [-> Hfirst]. intros [= <-].
      exists [], igroup, igroups. split_and!; [done|constructor|done..].
    + apply Hskip. by right.
Qed.

Lemma passed_over_no_match IGROUP_PREFIX lun_maps igroups igroup lun_map
    igroup_name :
  passed_over IGROUP_PREFIX lun_maps igroups →
  igroup ∈ igroups → lun_map ∈ lun_maps →
  igroup !! "initiator-group-name" = Some igroup_name →
  String.prefix IGROUP_PREFIX igroup_name = true →
  lun_map !! "initiator-group" ≠ Some igroup_name.
Proof.
  intros Hpassed Hi Hm Hname Hprefix.
  eapply Forall_forall in Hpassed as (n & Hn & Hwhy); [|exact Hi].
  rewrite Hname in Hn. injection Hn as <-.
  destruct Hwhy as [Hno|Hun]; [congruence|].
  by eapply unmapped_no_map.
Qed.

Lemma find_mapped_lun_igroup_run {B} `{!ZapiMapClient B} IGROUP_PREFIX
    (self : Library B) path initiator_list igroups lun_maps b' b'' :
  get_igroup_by_initiators initiator_list (zapi_client self)
    = (Ok igroups, b') →
  get_lun_map path b' = (Ok lun_maps, b'') →
  _find_mapped_lun_igroup IGROUP_PREFIX path initiator_list self =
  (match (if list_truthy igroups && list_truthy lun_maps
          then igroups_loop IGROUP_PREFIX igroups lun_maps
          else Ok None) with
   | Ok (Some (igroup_name, lun_id)) => Ok (Some igroup_name, Some lun_id)
   | Ok None => Ok (None, None)
   | Raise e => Raise e
   end,
   set_zapi_client b'' self).
Proof.
  intros Higroups Hmaps. unfold _find_mapped_lun_igroup.
  rewrite (run_bind_Ok _ _ self igroups (set_zapi_client b' self))
    by (unfold call; by rewrite Higroups).
  rewrite (run_bind_Ok _ _ _ lun_maps (set_zapi_client b'' self))
    by (unfold call; cbn; by rewrite Hmaps).
  rewrite run_bind.
  destruct (list_truthy igroups && list_truthy lun_maps); [|done].
  unfold lift.
  by destruct (igroups_loop IGROUP_PREFIX igroups lun_maps)
    as [[[igroup_name lun_id]|]|e].
Qed.

(** What a returned pair says about the two lists. *)
Lemma find_mapped_lun_igroup_returns {B} `{!ZapiMapClient B} IGROUP_PREFIX
    (self : Library B) path initiator_list igroups lun_maps b' b'' found :
  get_igroup_by_initiators initiator_list (zapi_client self)
    = (Ok igroups, b') →
  get_lun_map path b' = (Ok lun_maps, b'') →
  (_find_mapped_lun_igroup IGROUP_PREFIX path initiator_list self).1
    = Ok found →
  match found with
  | (Some igroup_name, Some lun_id) =>
      ∃ before igroup after,
        igroups = before ++ igroup :: after
        ∧ passed_over IGROUP_PREFIX lun_maps before
        ∧ igroup !! "initiator-group-name" = Some igroup_name
        ∧ String.prefix IGROUP_PREFIX igroup_name = true
        ∧ first_map igroup_name lun_id lun_maps
  | (None, None) =>
      igroups = [] ∨ lun_maps = []
      ∨ passed_over IGROUP_PREFIX lun_maps igroups
  | _ => False
  end.
Proof.
  intros Higroups Hmaps.
  rewrite (find_mapped_lun_igroup_run _ _ _ _ _ _ _ _ Higroups Hmaps).
  cbn [fst].
  destruct igroups as [|igroup igroups]; [intros [= <-]; by left|].
  destruct lun_maps as [|lun_map lun_maps];
    [intros [= <-]; right; by left|].
  cbn [list_truthy andb].
  destruct (igroups_loop _ _ _) as [inner|e] eqn:Hloop.
  - apply igroups_loop_inv in Hloop.
    destruct inner as [[igroup_name lun_id]|]; intros [= <-]; auto.
  - discriminate.
Qed.

(** X1. When both queries return and [_find_mapped_lun_igroup] returns a
    pair, the pair is either [(None, None)] or an igroup name with a LUN
    id; in the second case some igroup of the first answer has that
    name, the name starts with [IGROUP_PREFIX], and some map of the
    second answer belongs to that igroup and carries that LUN id. The
    driver is unchanged but for its client. *)
Theorem find_mapped_lun_igroup_sound {B} `{!ZapiMapClient B} IGROUP_PREFIX
    (self : Library B) path initiator_list igroups lun_maps b' b'' found :
  get_igroup_by_initiators initiator_list (zapi_client self)
    = (Ok igroups, b') →
  get_lun_map path b' = (Ok lun_maps, b'') →
  let after := _find_mapped_lun_igroup IGROUP_PREFIX path initiator_list self in
  after.1 = Ok found →
  after.2 = set_zapi_client b'' self
  ∧ (found = (None, None)
     ∨ ∃ igroup_name lun_id igroup lun_map,
         found = (Some igroup_name, Some lun_id)
         ∧ igroup ∈ igroups ∧ lun_map ∈ lun_maps
         ∧ maps_igroup IGROUP_PREFIX igroup lun_map igroup_name lun_id).
Proof.
  intros Higroups Hmaps after Hfound. subst after. split.
  { by rewrite (find_mapped_lun_igroup_run _ _ _ _ _ _ _ _ Higroups Hmaps). }
  apply (find_mapped_lun_igroup_returns _ _ _ _ _ _ _ _ _ Higroups Hmaps)
    in Hfound.
  destruct found as [[igroup_name|] [lun_id|]]; try done; [|by left].
  right.
  destruct Hfound as (before & igroup & after & -> & _ & Hname & Hprefix
                      & mbefore & lun_map & mafter & -> & _ & Hgroup & Hid).
  exists igroup_name, lun_id, igroup, lun_map.
  split_and!; [done| | |done].
  - apply elem_of_app. right. apply elem_of_cons. by left.
  - apply elem_of_app. right. apply elem_of_cons. by left.
Qed.

(** X2. When both queries return and [_find_mapped_lun_igroup] returns
    [(None, None)], no igroup of the first answer whose name starts with
    [IGROUP_PREFIX] has a map in the second answer: a mapping that is
    there is never missed. *)
Theorem find_mapped_lun_igroup_complete {B} `{!ZapiMapClient B} IGROUP_PREFIX
    (self : Library B) path initiator_list igroups lun_maps b' b'' :
  get_igroup_by_initiators initiator_list (zapi_client self)
    = (Ok igroups, b') →
  get_lun_map path b' = (Ok lun_maps, b'') →
  (_find_mapped_lun_igroup IGROUP_PREFIX path initiator_list self).1
    = Ok (None, None) →
  ∀ igroup lun_map igroup_name,
    igroup ∈ igroups → lun_map ∈ lun_maps →
    igroup !! "initiator-group-name" = Some igroup_name →
    String.prefix IGROUP_PREFIX igroup_name = true →
    lun_map !! "initiator-group" ≠ Some igroup_name.
Proof.
  intros Higroups Hmaps Hnone igroup lun_map igroup_name Hi Hm Hname Hprefix.
  apply (find_mapped_lun_igroup_returns _ _ _ _ _ _ _ _ _ Higroups Hmaps)
    in Hnone.
  destruct Hnone as [->|[->|Hpassed]].
  - by apply elem_of_nil in Hi.
  - by apply elem_of_nil in Hm.
  - by eapply passed_over_no_match.
Qed.

(** X3. The pair [_find_mapped_lun_igroup] returns is the first match in
    the order of the two answers: the igroup is the first one named with
    the prefix that any map belongs to, and the LUN id is that of the
    first map that belongs to it. *)
Theorem find_mapped_lun_igroup_first_match {B} `{!ZapiMapClient B}
    IGROUP_PREFIX (self : Library B) path initiator_list igroups lun_maps
    b' b'' igroup_name lun_id :
  get_igroup_by_initiators initiator_list (zapi_client self)
    = (Ok igroups, b') →
  get_lun_map path b' = (Ok lun_maps, b'') →
  (_find_mapped_lun_igroup IGROUP_PREFIX path initiator_list self).1
    = Ok (Some igroup_name, Some lun_id) →
  ∃ before igroup after mbefore lun_map mafter,
    igroups = before ++ igroup :: after
    ∧ lun_maps = mbefore ++ lun_map :: mafter
    ∧ maps_igroup IGROUP_PREFIX igroup lun_map igroup_name lun_id
    ∧ unmapped igroup_name mbefore
    ∧ passed_over IGROUP_PREFIX lun_maps before.
Proof.
  intros Higroups Hmaps Hfound.
  apply (find_mapped_lun_igroup_returns _ _ _ _ _ _ _ _ _ Higroups Hmaps)
    in Hfound.
  destruct Hfound as (before & igroup & after & -> & Hpassed & Hname & Hprefix
                      & mbefore & lun_map & mafter & -> & Hun & Hgroup & Hid).
  by exists before, igroup, after, mbefore, lun_map, mafter.
Qed.

(** Records that have the keys the loops read. *)
Lemma lun_maps_loop_total igroup_name lun_maps :
  Forall (fun lun_map => is_Some (lun_map !! "initiator-group")
                         ∧ is_Some (lun_map !! "lun-id")) lun_maps →
  ∃ found, lun_maps_loop igroup_name lun_maps = Ok found.
Proof.
  induction 1 as [|lun_map lun_maps [[g Hg] [lun_id Hid]] _ IH];
    [by eexists|].
  cbn [lun_maps_loop]. rewrite run_result_bind. unfold subscript.
  rewrite Hg. destruct (String.eqb g igroup_name); [|exact IH].
  rewrite Hid. by eexists.
Qed.

Lemma igroups_loop_total IGROUP_PREFIX igroups lun_maps :
  Forall (fun igroup => is_Some (igroup !! "initiator-group-name")) igroups →
  Forall (fun lun_map => is_Some (lun_map !! "initiator-group")
                         ∧ is_Some (lun_map !! "lun-id")) lun_maps →
  ∃ found, igroups_loop IGROUP_PREFIX igroups lun_maps = Ok found.
Proof.
  intros Higroups Hmaps.
  induction Higroups as [|igroup igroups [n Hn] _ IH]; [by eexists|].
  cbn [igroups_loop]. rewrite run_result_bind. unfold subscript.
  rewrite Hn. destruct (String.prefix IGROUP_PREFIX n); [|exact IH].
  destruct (lun_maps_loop_total n lun_maps Hmaps) as [[hit|] ->]; cbn.
  - by eexists.
  - exact IH.
Qed.

Lemma lun_maps_loop_raises igroup_name lun_maps e :
  lun_maps_loop igroup_name lun_maps = Raise e →
  e = KeyError "initiator-group" ∨ e = KeyError "lun-id".
Proof.
  induction lun_maps as [|lun_map lun_maps IH]; [discriminate|].
  cbn [lun_maps_loop]. rewrite run_result_bind. unfold subscript.
  destruct (lun_map !! "initiator-group") as [g|]; [|intros [= <-]; by left].
  destruct (String.eqb g igroup_name); [|exact IH].
  destruct (lun_map !! "lun-id"); [discriminate|intros [= <-]; by right].
Qed.

Lemma igroups_loop_raises IGROUP_PREFIX igroups lun_maps e :
  igroups_loop IGROUP_PREFIX igroups lun_maps = Raise e →
  e = KeyError "initiator-group-name"
  ∨ e = KeyError "initiator-group" ∨ e = KeyError "lun-id".
Proof.
  induction igroups as [|igroup igroups IH]; [discriminate|].
  cbn [igroups_loop]. rewrite run_result_bind. unfold subscript.
  destruct (igroup !! "initiator-group-name") as [n|];
    [|intros [= <-]; by left].
  destruct (String.prefix IGROUP_PREFIX n); [|exact IH].
  destruct (lun_maps_loop n lun_maps) as [[hit|]|e'] eqn:Hinner; cbn.
  - discriminate.
  - exact IH.
  - intros [= <-]. right. by eapply lun_maps_loop_raises.
Qed.

(** X4. When one of the two answers is empty, [_find_mapped_lun_igroup]
    returns [(None, None)] without reading a record of the other answer,
    whatever keys those records have or lack. *)
Theorem find_mapped_lun_igroup_empty {B} `{!ZapiMapClient B} IGROUP_PREFIX
    (self : Library B) path initiator_list igroups lun_maps b' b'' :
  get_igroup_by_initiators initiator_list (zapi_client self)
    = (Ok igroups, b') →
  get_lun_map path b' = (Ok lun_maps, b'') →
  igroups = [] ∨ lun_maps = [] →
  _find_mapped_lun_igroup IGROUP_PREFIX path initiator_list self
  = (Ok (None, None), set_zapi_client b'' self).
Proof.
  intros Higroups Hmaps Hempty.
  rewrite (find_mapped_lun_igroup_run _ _ _ _ _ _ _ _ Higroups Hmaps).
  destruct Hempty as [->| ->]; [done|].
  by destruct igroups.
Qed.

(** X5. When every igroup in the first answer has a name and every map
    in the second has an igroup and a LUN id, [_find_mapped_lun_igroup]
    returns; and when, besides, some igroup named with the prefix has a
    map, what it returns is an igroup name with a LUN id, not
    [(None, None)]. *)
Theorem find_mapped_lun_igroup_finds {B} `{!ZapiMapClient B} IGROUP_PREFIX
    (self : Library B) path initiator_list igroups lun_maps b' b'' :
  get_igroup_by_initiators initiator_list (zapi_client self)
    = (Ok igroups, b') →
  get_lun_map path b' = (Ok lun_maps, b'') →
  Forall (fun igroup => is_Some (igroup !! "initiator-group-name")) igroups →
  Forall (fun lun_map => is_Some (lun_map !! "initiator-group")
                         ∧ is_Some (lun_map !! "lun-id")) lun_maps →
  let after := _find_mapped_lun_igroup IGROUP_PREFIX path initiator_list self in
  (∃ found, after.1 = Ok found)
  ∧ ((∃ igroup lun_map igroup_name lun_id,
        igroup ∈ igroups ∧ lun_map ∈ lun_maps
        ∧ maps_igroup IGROUP_PREFIX igroup lun_map igroup_name lun_id) →
     ∃ igroup_name lun_id, after.1 = Ok (Some igroup_name, Some lun_id)).
Proof.
  intros Higroups Hmaps Hwf_i Hwf_m after.
  assert (Hret : ∃ found, after.1 = Ok found).
  { subst after.
    rewrite (find_mapped_lun_igroup_run _ _ _ _ _ _ _ _ Higroups Hmaps).
    cbn [fst]. destruct (list_truthy igroups && list_truthy lun_maps);
      [|by eexists].
    destruct (igroups_loop_total IGROUP_PREFIX igroups lun_maps Hwf_i Hwf_m)
      as [[[n lun_id]|] ->]; by eexists. }
  split; [exact Hret|].
  intros (igroup & lun_map & igroup_name & lun_id & Hi & Hm
          & Hname & Hprefix & Hgroup & Hid).
  destruct Hret as [found Hfound]. subst after. rewrite Hfound.
  apply (find_mapped_lun_igroup_returns _ _ _ _ _ _ _ _ _ Higroups Hmaps)
    in Hfound.
  destruct found as [[n|] [i|]]; try done; [by eauto|].
  exfalso. destruct Hfound as [->|[->|Hpassed]].
  - by apply elem_of_nil in Hi.
  - by apply elem_of_nil in Hm.
  - by eapply passed_over_no_match.
Qed.

(** X6. When both queries return, the only exception
    [_find_mapped_lun_igroup] can raise is a [KeyError] for one of the
    three keys it reads: ['initiator-group-name'], ['initiator-group']
    and ['lun-id']. *)
Theorem find_mapped_lun_igroup_raises_key_error {B} `{!ZapiMapClient B}
    IGROUP_PREFIX (self : Library B) path initiator_list igroups lun_maps
    b' b'' e :
  get_igroup_by_initiators initiator_list (zapi_client self)
    = (Ok igroups, b') →
  get_lun_map path b' = (Ok lun_maps, b'') →
  (_find_mapped_lun_igroup IGROUP_PREFIX path initiator_list self).1
    = Raise e →
  e = KeyError "initiator-group-name"
  ∨ e = KeyError "initiator-group" ∨ e = KeyError "lun-id".
Proof.
  intros Higroups Hmaps.
  rewrite (find_mapped_lun_igroup_run _ _ _ _ _ _ _ _ Higroups Hmaps).
  cbn [fst]. destruct (list_truthy igroups && list_truthy lun_maps);
    [|discriminate].
  destruct (igroups_loop _ _ _) as [[[n i]|]|e'] eqn:Hloop; try discriminate.
  intros [= <-]. by eapply igroups_loop_raises.
Qed.

(** ** Marking and draining in sequence *)

(** The whole behaviour of [_update_stale_vols]: the stale set object
    gets the pool, and a drain copies it into a new object before it
    empties it. *)
Lemma update_stale_vols_run {B} (self : Library B) volume reset :
  let marked :=
    match volume with
    | Some vol => set_stale_vols (set_add vol (stale_set self)) self
    | None => self
    end in
  _update_stale_vols volume reset self =
  if reset then
    let set_copy := fresh (dom (objects marked)) in
    (Ok (Some set_copy),
     set_stale_vols ∅ (set_object set_copy (stale_set marked) marked))
  else (Ok None, marked).
Proof. by destruct volume, reset. Qed.

Lemma fresh_object {B} (self : Library B) :
  objects self !! fresh (dom (objects self)) = None.
Proof. apply not_elem_of_dom, is_fresh. Qed.

Lemma fresh_object_ne {B} (self : Library B) r :
  is_Some (objects self !! r) → fresh (dom (objects self)) ≠ r.
Proof. intros [s Hs] Heq. by rewrite <- Heq, fresh_object in Hs. Qed.

Lemma stale_object_marked {B} (self : Library B) volume :
  is_Some (objects self !! stale_vols self) →
  is_Some (objects
             match volume with
             | Some vol => set_stale_vols (set_add vol (stale_set self)) self
             | None => self
             end
           !! stale_vols self).
Proof.
  intros Hobj. destruct volume as [vol|]; [|done].
  cbn. rewrite lookup_insert_eq. by eexists.
Qed.

Lemma mark_each_run {B} (self : Library B) vols :
  ∃ self',
    mark_each vols self = (Ok tt, self')
    ∧ stale_vols self' = stale_vols self
    ∧ (is_Some (objects self !! stale_vols self) →
       is_Some (objects self' !! stale_vols self))
    ∧ (∀ r, r ≠ stale_vols self → objects self' !! r = objects self !! r)
    ∧ ∀ x, set_in x (stale_set self')
           = set_in x (stale_set self)
             || existsb (fun vol => bool_decide (vol_id x = vol_id vol)) vols.
Proof.
  revert self. induction vols as [|vol vols IH]; intros self.
  - exists self. split_and!; try done.
    intros x. cbn. by rewrite orb_false_r.
  - cbn [mark_each].
    destruct (IH (set_stale_vols (set_add vol (stale_set self)) self))
      as (self' & Hrun & Href & Hobj & Hframe & Hin).
    exists self'. split_and!.
    + by rewrite (run_bind_Ok _ _ self None
                    (set_stale_vols (set_add vol (stale_set self)) self)).
    + exact Href.
    + intros _. apply Hobj. cbn. rewrite lookup_insert_eq. by eexists.
    + intros r Hne. rewrite Hframe by done. cbn.
      by rewrite lookup_insert_ne.
    + intros x. rewrite Hin, stale_set_set_stale_vols, set_in_add. cbn.
      by rewrite orb_assoc.
Qed.

(** X7. Marks are kept for the next drain. On a driver whose stale set
    holds [S], after marking the pools of a list one after the other, a
    drain (with or without one more pool) returns a new set object whose
    members are exactly the members of [S] and the pools equal to one
    that was marked, and leaves the stale set empty; a second drain
    right after it returns an empty copy. *)
Theorem marks_reach_next_drain {B} (self : Library B)
    (vols : list NetAppVolume) (volume : option NetAppVolume) :
  is_Some (objects self !! stale_vols self) →
  let marked := (mark_each vols self).2 in
  let drained := _update_stale_vols volume true marked in
  let again := _update_stale_vols None true drained.2 in
  (∃ set_copy,
     drained.1 = Ok (Some set_copy)
     ∧ set_copy ≠ stale_vols self
     ∧ (∀ x, set_in x (deref set_copy drained.2)
             = set_in x (stale_set self)
               || existsb (fun vol => bool_decide (vol_id x = vol_id vol))
                          (vols ++ from_option (fun vol => [vol]) [] volume))
     ∧ stale_set drained.2 = ∅)
  ∧ (∃ set_copy, again.1 = Ok (Some set_copy)
                 ∧ deref set_copy again.2 = ∅).
Proof.
  intros Hobj marked drained again.
  destruct (mark_each_run self vols)
    as (self' & Hrun & Href & Hobj' & _ & Hin).
  specialize (Hobj' Hobj).
  assert (marked = self') as -> by (subst marked; by rewrite Hrun).
  subst again drained. rewrite !update_stale_vols_run. cbn zeta.
  cbn [fst snd]. rewrite <- Href in *.
  set (s1 := match volume with
             | Some vol => set_stale_vols (set_add vol (stale_set self')) self'
             | None => self'
             end).
  assert (Hs1 : is_Some (objects s1 !! stale_vols self'))
    by (by apply stale_object_marked).
  pose proof (fresh_object_ne s1 _ Hs1) as Hne.
  assert (Hst : stale_vols s1 = stale_vols self')
    by (subst s1; by destruct volume).
  set (set_copy := fresh (dom (objects s1))) in *.
  set (s2 := set_stale_vols ∅ (set_object set_copy (stale_set s1) s1)).
  assert (Hcopy : deref set_copy s2 = stale_set s1).
  { subst s2. unfold set_stale_vols.
    change (stale_vols (set_object ?r ?s s1)) with (stale_vols s1).
    rewrite Hst, deref_set_object_ne by (intros Heq; by apply Hne).
    apply deref_set_object_eq. }
  split.
  - exists set_copy.
    split_and!; [done|done| |apply stale_set_set_stale_vols].
    intros x. rewrite Hcopy, existsb_app.
    subst s1. destruct volume as [vol|]; cbn [from_option existsb].
    + rewrite stale_set_set_stale_vols, set_in_add, Hin.
      by rewrite orb_false_r, orb_assoc.
    + by rewrite Hin, orb_false_r.
  - exists (fresh (dom (objects s2))). split; [done|].
    change (deref (fresh (dom (objects s2)))
              (set_stale_vols ∅
                 (set_object (fresh (dom (objects s2))) (stale_set s2) s2))
            = ∅).
    unfold set_stale_vols at 1.
    change (stale_vols (set_object ?r ?s s2)) with (stale_vols s2).
    rewrite deref_set_object_ne.
    + rewrite deref_set_object_eq. apply stale_set_set_stale_vols.
    + intros Heq. symmetry in Heq. revert Heq. apply fresh_object_ne.
      subst s2. cbn. rewrite lookup_insert_eq. by eexists.
Qed.

(** X8. Marking and draining change no set object other than the stale
    set itself: an object that exists and is not the stale set, such as
    the copy an earlier drain returned, holds the same elements after
    any call of [_update_stale_vols]. *)
Theorem update_stale_vols_keeps_other_objects {B} (self : Library B)
    (r : ref) (s : VolSet) volume reset :
  objects self !! r = Some s →
  r ≠ stale_vols self →
  let after := (_update_stale_vols volume reset self).2 in
  objects after !! r = Some s ∧ stale_vols after = stale_vols self.
Proof.
  intros Hr Hne after. subst after. rewrite update_stale_vols_run. cbn zeta.
  set (s1 := match volume with
             | Some vol => set_stale_vols (set_add vol (stale_set self)) self
             | None => self
             end).
  assert (Hst : stale_vols s1 = stale_vols self)
    by (subst s1; by destruct volume).
  assert (Hr1 : objects s1 !! r = Some s).
  { subst s1. destruct volume as [vol|]; [|done].
    cbn. by rewrite lookup_insert_ne. }
  destruct reset; cbn [snd]; [|done].
  split; [|done]. cbn.
  rewrite Hst, lookup_insert_ne by done.
  rewrite lookup_insert_ne; [done|].
  apply fresh_object_ne. by eexists.
Qed.

(** ** Metadata and handles *)

(** The metadata built from a record has the six keys, each with the
    content of its child. *)
Lemma create_lun_meta_lookup (lun : NaElement) :
  _create_lun_meta lun !! "Vserver" = Some (get_child_content lun "vserver")
  ∧ _create_lun_meta lun !! "Volume" = Some (get_child_content lun "volume")
  ∧ _create_lun_meta lun !! "Qtree" = Some (get_child_content lun "qtree")
  ∧ _create_lun_meta lun !! "Path" = Some (get_child_content lun "path")
  ∧ _create_lun_meta lun !! "OsType"
    = Some (get_child_content lun "multiprotocol-type")
  ∧ _create_lun_meta lun !! "SpaceReserved"
    = Some (get_child_content lun "is-space-reservation-enabled").
Proof. unfold _create_lun_meta. split_and!; by simplify_map_eq. Qed.

(** The whole behaviour of [_clone_lun], by what the table holds and
    what the client answers. *)
Lemma clone_lun_run {B} `{!ZapiClient B} (self : Library B)
    (name new_name space_reserved : string)
    (src_block dest_block block_count : Z) :
  _clone_lun name new_name space_reserved src_block dest_block block_count
             self =
  match lun_table self !! name with
  | None =>
      (Raise (TypeError "'NoneType' object is not subscriptable"), self)
  | Some lun =>
      match lun_metadata lun !! "Volume" with
      | None => (Raise (KeyError "Volume"), self)
      | Some volume =>
          match clone_lun volume name new_name space_reserved 0 0 0
                          (zapi_client self) with
          | (Raise e, b') => (Raise e, set_zapi_client b' self)
          | (Ok _, b') =>
              match get_lun_by_args (vserver self)
                      ("/vol/" +:+ fmt_s volume +:+ "/" +:+ new_name) b' with
              | (Raise e, b'') => (Raise e, set_zapi_client b'' self)
              | (Ok [], b'') =>
                  (Raise (VolumeBackendAPIException
                            ("No cloned LUN named " +:+ new_name
                             +:+ " found on the filer")),
                   set_zapi_client b'' self)
              | (Ok (lun_0 :: _), b'') =>
                  (Ok tt,
                   set_stale_vols
                     (set_add (NetAppVolume_init volume (Some (vserver self)))
                              (stale_set self))
                     (set_lun_table
                        (<[new_name :=
                             {| lun_handle :=
                                  fmt_s (get_child_content lun_0 "vserver")
                                  +:+ ":"
                                  +:+ fmt_s (get_child_content lun_0 "path");
                                lun_name := new_name;
                                lun_size := get_child_content lun_0 "size";
                                lun_metadata := _create_lun_meta lun_0 |}]>
                           (lun_table self))
                        (set_zapi_client b'' self)))
              end
          end
      end
  end.
Proof.
  unfold _clone_lun, _get_lun_attr_metadata.
  rewrite (run_bind_Ok _ _ self (lun_metadata <$> lun_table self !! name)
             self) by done.
  destruct (lun_table self !! name) as [lun|]; cbn [fmap option_fmap option_map];
    [|done].
  rewrite run_bind. unfold lift at 1, subscript at 1.
  destruct (lun_metadata lun !! "Volume") as [volume|]; [|done].
  rewrite run_bind. unfold call at 1.
  destruct (clone_lun _ _ _ _ _ _ _ _) as [[[]|e] b']; [|done].
  rewrite (run_bind_Ok _ _ _ (vserver self) (set_zapi_client b' self))
    by done.
  rewrite run_bind. unfold call at 1. cbn [zapi_client set_zapi_client].
  destruct (get_lun_by_args _ _ _) as [[[|lun_0 luns]|e] b'']; [done| |done].
  destruct (create_lun_meta_lookup lun_0) as (Hvs & _ & _ & Hpath & _).
  rewrite (run_bind_Ok _ _ _ (get_child_content lun_0 "vserver")
             (set_zapi_client b'' (set_zapi_client b' self)))
    by (unfold lift, subscript; by rewrite Hvs).
  rewrite (run_bind_Ok _ _ _ (get_child_content lun_0 "path")
             (set_zapi_client b'' (set_zapi_client b' self)))
    by (unfold lift, subscript; by rewrite Hpath).
  reflexivity.
Qed.

(** ** Cloning and creating LUNs *)

(** X9. When the source LUN's metadata gives its pool, the backend clone
    call returns and the lookup of the new path returns records,
    [_clone_lun] returns normally; the LUN table then holds under the new
    name a LUN built from the first record only (handle
    [vserver:path], size and metadata of that record), every other entry
    of the table is as before, the catalog is as before, and the stale
    set is the old one with the source LUN's recorded pool added. *)
Theorem clone_lun_registers_first_record {B} `{!ZapiClient B}
    (self : Library B) (name new_name space_reserved : string)
    (src_block dest_block block_count : Z)
    (lun : NetAppLun) (volume : pystr) (b' b'' : B)
    (lun_0 : NaElement) (more : list NaElement) :
  lun_table self !! name = Some lun →
  lun_metadata lun !! "Volume" = Some volume →
  clone_lun volume name new_name space_reserved 0 0 0 (zapi_client self)
    = (Ok tt, b') →
  get_lun_by_args (vserver self)
    ("/vol/" +:+ fmt_s volume +:+ "/" +:+ new_name) b'
    = (Ok (lun_0 :: more), b'') →
  let after :=
    _clone_lun name new_name space_reserved src_block dest_block block_count
               self in
  after.1 = Ok tt
  ∧ lun_table after.2 !! new_name
    = Some {| lun_handle := fmt_s (get_child_content lun_0 "vserver")
                            +:+ ":" +:+ fmt_s (get_child_content lun_0 "path");
              lun_name := new_name;
              lun_size := get_child_content lun_0 "size";
              lun_metadata := _create_lun_meta lun_0 |}
  ∧ (∀ other, other ≠ new_name →
              lun_table after.2 !! other = lun_table self !! other)
  ∧ stale_set after.2
    = set_add (NetAppVolume_init volume (Some (vserver self)))
              (stale_set self)
  ∧ ssc_vols after.2 = ssc_vols self
  ∧ zapi_client after.2 = b''.
Proof.
  intros Hlun Hvol Hclone Hget after. subst after.
  rewrite clone_lun_run, Hlun, Hvol, Hclone, Hget. cbn [fst snd].
  split_and!; try done.
  - cbn. apply lookup_insert_eq.
  - intros other Hne. cbn. by rewrite lookup_insert_ne.
  - apply stale_set_set_stale_vols.
Qed.



(** X12. [_create_lun] asks the backend exactly once, for the volume,
    name, size, metadata and QoS policy group it was given, and whether
    that call returns or raises it leaves the LUN table and the catalog
    as they were: creating a LUN registers nothing locally. *)
Theorem create_lun_calls_backend_once {B} `{!ZapiClient B}
    (self : Library (B * list ZapiCall)) (volume_name lun_name : string)
    (size : Z) (metadata : Metadata) (qos_policy_group : pystr) :
  let after :=
    (_create_lun volume_name lun_name size metadata qos_policy_group self).2 in
  calls_of after
  = calls_of self
    ++ [CreateLun volume_name lun_name size metadata qos_policy_group]
  ∧ lun_table after = lun_table self
  ∧ ssc_vols after = ssc_vols self.
Proof.
  intros after. subst after. rewrite create_lun_run. unfold calls_of.
  destruct self as [vs conf [b calls] table ssc objs stale]. cbn.
  by destruct (create_lun volume_name lun_name size metadata
                          qos_policy_group b) as [[[]|e] b'].
Qed.

Lemma create_lun_handle_run {B} (self : Library B) (metadata : Metadata) :
  _create_lun_handle metadata self =
  match metadata !! "Path" with
  | Some path => (Ok (vserver self +:+ ":" +:+ fmt_s path), self)
  | None => (Raise (KeyError "Path"), self)
  end.
Proof.
  unfold _create_lun_handle.
  rewrite (run_bind_Ok _ _ self (vserver self) self) by done.
  rewrite run_bind. unfold lift, subscript.
  by destruct (metadata !! "Path").
Qed.

Lemma append_inj_r (prefix s1 s2 : string) :
  prefix +:+ s1 = prefix +:+ s2 → s1 = s2.
Proof.
  induction prefix as [|c prefix IH]; cbn; [done|].
  intros [= Heq]. by apply IH.
Qed.

(** X13. [_create_lun_handle] never fails on metadata made by
    [_create_lun_meta]: for every backend record it returns the driver's
    vserver, a colon and the record's path (the text [None] when the
    record has no path), and leaves the driver as it is. On metadata
    without the key ['Path'] it raises [KeyError], again without any
    change. *)
Theorem create_lun_handle_of_record {B} (self : Library B) :
  (∀ lun : NaElement,
     _create_lun_handle (_create_lun_meta lun) self
     = (Ok (vserver self +:+ ":" +:+ fmt_s (get_child_content lun "path")),
        self))
  ∧ (∀ metadata : Metadata,
       metadata !! "Path" = None →
       _create_lun_handle metadata self = (Raise (KeyError "Path"), self)).
Proof.
  split.
  - intros lun. rewrite create_lun_handle_run.
    destruct (create_lun_meta_lookup lun) as (_ & _ & _ & -> & _). done.
  - intros metadata Hnone. by rewrite create_lun_handle_run, Hnone.
Qed.

(** X14. Within one driver a handle stands for one path: when
    [_create_lun_handle] returns the same handle for two metadata
    dictionaries, their paths are the same text; in particular two LUNs
    with different path strings get different handles. *)
Theorem create_lun_handle_injective {B} (self : Library B)
    (metadata metadata' : Metadata) (handle : string) :
  (_create_lun_handle metadata self).1 = Ok handle →
  (_create_lun_handle metadata' self).1 = Ok handle →
  ∃ path path',
    metadata !! "Path" = Some path ∧ metadata' !! "Path" = Some path'
    ∧ fmt_s path = fmt_s path'
    ∧ ∀ p p', path = Some p → path' = Some p' → p = p'.
Proof.
  rewrite !create_lun_handle_run.
  destruct (metadata !! "Path") as [path|]; [|discriminate].
  destruct (metadata' !! "Path") as [path'|]; [|discriminate].
  cbn. intros [= <-] [= Heq].
  apply append_inj_r in Heq. cbn in Heq. injection Heq as Heq.
  exists path, path'. split_and!; try done.
  by intros p p' -> -> .
Qed.

(** X15. The handle [_clone_lun] registers for the clone is the one
    [_create_lun_handle] makes from the clone's metadata, whenever the
    record found for the clone names the driver's own vserver. *)
Theorem clone_lun_handle_agrees {B} `{!ZapiClient B}
    (self : Library B) (name new_name space_reserved : string)
    (src_block dest_block block_count : Z)
    (lun : NetAppLun) (volume : pystr) (b' b'' : B)
    (lun_0 : NaElement) (more : list NaElement) :
  lun_table self !! name = Some lun →
  lun_metadata lun !! "Volume" = Some volume →
  clone_lun volume name new_name space_reserved 0 0 0 (zapi_client self)
    = (Ok tt, b') →
  get_lun_by_args (vserver self)
    ("/vol/" +:+ fmt_s volume +:+ "/" +:+ new_name) b'
    = (Ok (lun_0 :: more), b'') →
  get_child_content lun_0 "vserver" = Some (vserver self) →
  let after :=
    (_clone_lun name new_name space_reserved src_block dest_block block_count
                self).2 in
  ∃ clone,
    lun_table after !! new_name = Some clone
    ∧ (_create_lun_handle (lun_metadata clone) after).1
      = Ok (lun_handle clone).
Proof.
  intros Hlun Hvol Hclone Hget Hvs after. subst after.
  rewrite clone_lun_run, Hlun, Hvol, Hclone, Hget. cbn [snd].
  eexists. split; [cbn; apply lookup_insert_eq|].
  rewrite create_lun_handle_run. cbn [lun_metadata lun_handle].
  destruct (create_lun_meta_lookup lun_0) as (_ & _ & _ & -> & _).
  by rewrite Hvs.
Qed.

(** ** Deleting without a recorded pool, and what the lifecycle never
    does *)

(** X16. [delete_volume] on a volume without a name raises [KeyError]
    before anything is run, the driver staying as it is. On a volume
    whose LUN is in the table but records no pool (no ['Volume'] value,
    or the empty string), it does what the base deletion does and marks
    nothing: no set object changes, whether the base deletion returns
    or raises. *)
Theorem delete_volume_without_pool {B} `{!BlockBase B}
    (self : Library B) (volume : CinderVolume) :
  (volume !! "name" = None →
   delete_volume volume self = (Raise (KeyError "name"), self))
  ∧ (∀ volume_name lun,
       volume !! "name" = Some volume_name →
       lun_table self !! volume_name = Some lun →
       get_metadata_property lun "Volume" = None
       ∨ get_metadata_property lun "Volume" = Some "" →
       let base :=
         super_delete_volume volume (lun_table self, zapi_client self) in
       let after := delete_volume volume self in
       after = (base.1,
                set_zapi_client base.2.2 (set_lun_table base.2.1 self))
       ∧ objects after.2 = objects self).
Proof.
  split.
  - intros Hnone. unfold delete_volume. rewrite run_bind.
    unfold lift, subscript. by rewrite Hnone.
  - intros volume_name lun Hname Hlun Hpool base after. subst after base.
    rewrite (delete_volume_run self volume volume_name Hname).
    rewrite Hlun. cbn [from_option].
    assert (truthy (get_metadata_property lun "Volume") = false) as ->
      by (by destruct Hpool as [-> | ->]).
    by destruct (super_delete_volume _ _) as [[[]|e] [table' b']].
Qed.

(** Adding to a set keeps its members. *)
Lemma set_in_add_mono x vol s :
  set_in x s = true → set_in x (set_add vol s) = true.
Proof. intros Hin. by rewrite set_in_add, Hin. Qed.

(** X17. The lifecycle operations never change the catalog and never
    unmark a pool: after [_create_lun], [_clone_lun] or [delete_volume],
    returning or raising, [ssc_vols] is what it was and every pool that
    was in the stale set is still in it. *)
Theorem lifecycle_keeps_catalog_and_marks {B} `{!ZapiClient B}
    `{!BlockBase B} (self : Library B) :
  let kept (after : Library B) :=
    ssc_vols after = ssc_vols self
    ∧ ∀ x, set_in x (stale_set self) = true →
           set_in x (stale_set after) = true in
  (∀ volume_name lun_name size metadata qos_policy_group,
     kept (_create_lun volume_name lun_name size metadata qos_policy_group
                       self).2)
  ∧ (∀ name new_name space_reserved src_block dest_block block_count,
       kept (_clone_lun name new_name space_reserved src_block dest_block
                        block_count self).2)
  ∧ (∀ volume, kept (delete_volume volume self).2).
Proof.
  intros kept. subst kept. cbn beta. split_and!.
  - intros volume_name lun_name size metadata qos. rewrite create_lun_run.
    destruct (create_lun _ _ _ _ _ _) as [[[]|e] b']; cbn [snd];
      (split; [done|]); [|done].
    intros x Hin. rewrite stale_set_set_stale_vols.
    by apply set_in_add_mono.
  - intros name new_name sr a b c. rewrite clone_lun_run.
    destruct (lun_table self !! name) as [lun|]; [|done].
    destruct (lun_metadata lun !! "Volume") as [volume|]; [|done].
    destruct (clone_lun _ _ _ _ _ _ _ _) as [[[]|e] b']; [|done].
    destruct (get_lun_by_args _ _ _) as [[[|lun_0 luns]|e] b''];
      cbn [snd]; (split; [done|]); [done| |done].
    intros x Hin. rewrite stale_set_set_stale_vols.
    by apply set_in_add_mono.
  - intros volume.
    destruct (volume !! "name") as [volume_name|] eqn:Hname.
    + rewrite (delete_volume_run self volume volume_name Hname).
      destruct (super_delete_volume _ _) as [[[]|e] [table' b']];
        cbn [fst snd]; [|done].
      destruct (truthy _); cbn [snd]; (split; [done|]); [|done].
      intros x Hin. rewrite stale_set_set_stale_vols.
      by apply set_in_add_mono.
    + unfold delete_volume. rewrite run_bind.
      unfold lift, subscript. by rewrite Hname.
Qed.

(** ** More on the statistics *)

Lemma length_set_iter (s : VolSet) : length (set_iter s) = size s.
Proof. unfold set_iter. by rewrite length_fmap, length_map_to_list. Qed.

(** X18. A list of entries [_get_pool_stats] returns has one entry for
    each pool of [ssc_vols['all']], so as many entries as that set has
    pools; every entry reports no QoS support, a reserved percentage of
    zero, and the RAID type and disk type of its pool's aggregate as
    they are. *)
Theorem pool_stats_one_entry_per_pool {B} (self self' : Library B) pools :
  _get_pool_stats self = (Ok pools, self') →
  Forall2 (fun vol pool =>
             QoS_support pool = false
             ∧ reserved_percentage pool = 0
             ∧ vol_aggr vol !! "raid_type" = Some (netapp_raid_type pool)
             ∧ vol_aggr vol !! "disk_type" = Some (netapp_disk_type pool))
          (catalog_pools self) pools
  ∧ (∀ ssc all, ssc_vols self = Some ssc → ssc !! "all" = Some all →
                length pools = size all).
Proof.
  intros Hrun. apply get_pool_stats_Ok in Hrun. split.
  - eapply Forall2_impl; [exact Hrun|]. cbn.
    by intros vol pool (_ & Hqos & Hres & _ & Hraid & Hdisk & _)%pool_of_Ok.
  - intros ssc all Hssc Hall. apply Forall2_length in Hrun.
    rewrite <- Hrun. unfold catalog_pools. rewrite Hssc, Hall. cbn.
    apply length_set_iter.
Qed.

Lemma round_down_finite x precision :
  is_finite x = true → ∃ d, round_down x precision = Ok d.
Proof. destruct x; try discriminate; intros _; by eexists. Qed.

Lemma gibibytes_Ok_inv multiplier bytes total :
  gibibytes multiplier bytes = Ok total →
  ∃ x, truediv (float_of_Z bytes) multiplier = Ok x
       ∧ truediv x (float_of_Z units_Gi) = Ok total.
Proof.
  unfold gibibytes.
  destruct (truediv (float_of_Z bytes) multiplier) as [x|e]; [|discriminate].
  eauto.
Qed.

(** A quotient that is a number comes from a byte count that converts. *)
Lemma gibibytes_finite multiplier bytes total :
  gibibytes multiplier bytes = Ok total → is_finite total = true →
  float bytes = Ok (float_of_Z bytes).
Proof.
  intros (x & Hx & Htotal)%gibibytes_Ok_inv Hfin. unfold float.
  rewrite float_of_Z_units_Gi in Htotal. unfold truediv in Hx, Htotal.
  destruct (float_of_Z bytes) as [s|s| |s m e]; try done;
    destruct multiplier as [s'|s'| |s' m' e']; cbn in Hx; try discriminate;
    injection Hx as <-; cbn in Htotal; injection Htotal as <-; discriminate.
Qed.

(** The loop body returns on a pool that has what is read of it. *)
Lemma pool_of_total {B} (self : Library B) ssc vol :
  ssc_vols self = Some ssc → catalog_complete ssc →
  reportable (netapp_size_multiplier (configuration self)) vol →
  ∃ pool, pool_of vol self = (Ok pool, self).
Proof.
  intros Hssc (_ & [mirrored Hm] & [dedup Hd] & [compression Hc] & [thin Ht])
         ((tb & total & Htb & Htotal & Htfin)
          & (ab & free & Hab & Hfree & Hffin) & [raid Hraid] & [disk Hdisk]).
  pose proof (gibibytes_finite _ _ _ Htotal Htfin) as Htconv.
  pose proof (gibibytes_finite _ _ _ Hfree Hffin) as Hfconv.
  apply gibibytes_Ok_inv in Htotal as (t1 & Ht1 & Ht2).
  apply gibibytes_Ok_inv in Hfree as (f1 & Hf1 & Hf2).
  destruct (round_down_finite total "0.01" Htfin) as [dt Hdt].
  destruct (round_down_finite free "0.01" Hffin) as [df Hdf].
  eexists. unfold pool_of.
  rewrite (run_bind_Ok _ _ self tb self)
    by (unfold lift, subscript; by rewrite Htb).
  rewrite (run_bind_Ok _ _ self (float_of_Z tb) self)
    by (unfold lift; by rewrite Htconv).
  rewrite (run_bind_Ok _ _ self _ self) by reflexivity.
  rewrite (run_bind_Ok _ _ self t1 self) by (unfold lift; by rewrite Ht1).
  rewrite (run_bind_Ok _ _ self total self) by (unfold lift; by rewrite Ht2).
  rewrite (run_bind_Ok _ _ self dt self) by (unfold lift; by rewrite Hdt).
  rewrite (run_bind_Ok _ _ self ab self)
    by (unfold lift, subscript; by rewrite Hab).
  rewrite (run_bind_Ok _ _ self (float_of_Z ab) self)
    by (unfold lift; by rewrite Hfconv).
  rewrite (run_bind_Ok _ _ self _ self) by reflexivity.
  rewrite (run_bind_Ok _ _ self f1 self) by (unfold lift; by rewrite Hf1).
  rewrite (run_bind_Ok _ _ self free self) by (unfold lift; by rewrite Hf2).
  rewrite (run_bind_Ok _ _ self df self) by (unfold lift; by rewrite Hdf).
  rewrite (run_bind_Ok _ _ self raid self)
    by (unfold lift, subscript; by rewrite Hraid).
  rewrite (run_bind_Ok _ _ self disk self)
    by (unfold lift, subscript; by rewrite Hdisk).
  rewrite (run_bind_Ok _ _ self mirrored self)
    by (rewrite (ssc_vols_getitem_run self ssc) by done;
        unfold subscript; by rewrite Hm).
  rewrite (run_bind_Ok _ _ self dedup self)
    by (rewrite (ssc_vols_getitem_run self ssc) by done;
        unfold subscript; by rewrite Hd).
  rewrite (run_bind_Ok _ _ self compression self)
    by (rewrite (ssc_vols_getitem_run self ssc) by done;
        unfold subscript; by rewrite Hc).
  rewrite (run_bind_Ok _ _ self thin self)
    by (rewrite (ssc_vols_getitem_run self ssc) by done;
        unfold subscript; by rewrite Ht).
  reflexivity.
Qed.

Lemma pools_loop_total {B} (self : Library B) ssc vols acc :
  ssc_vols self = Some ssc → catalog_complete ssc →
  Forall (reportable (netapp_size_multiplier (configuration self))) vols →
  ∃ pools, pools_loop vols acc self = (Ok pools, self).
Proof.
  intros Hssc Hcomplete Hvols. revert acc.
  induction Hvols as [|vol vols Hvol _ IH]; intros acc; [by eexists|].
  destruct (pool_of_total self ssc vol Hssc Hcomplete Hvol) as [pool Hpool].
  cbn [pools_loop]. rewrite (run_bind_Ok _ _ _ _ _ Hpool). apply IH.
Qed.

(** X19. [_get_pool_stats] returns, with one entry per pool and the
    driver unchanged, whenever the catalog has its five sets and every
    pool of ['all'] has both byte counts and both aggregate attributes,
    with quotients under the (non-zero) multiplier that are numbers. *)
Theorem get_pool_stats_returns {B} (self : Library B) ssc all :
  ssc_vols self = Some ssc →
  catalog_complete ssc →
  ssc !! "all" = Some all →
  Forall (reportable (netapp_size_multiplier (configuration self)))
         (set_iter all) →
  ∃ pools, _get_pool_stats self = (Ok pools, self)
           ∧ length pools = size all.
Proof.
  intros Hssc Hcomplete Hall Hvols.
  destruct (pools_loop_total self ssc (set_iter all) [] Hssc Hcomplete Hvols)
    as [pools Hloop].
  assert (Hrun : _get_pool_stats self = (Ok pools, self)).
  { unfold _get_pool_stats.
    rewrite (run_bind_Ok _ _ self (ssc_vols self) self) by done.
    rewrite Hssc. cbn [ssc_vols_falsy]. case_bool_decide as Hempty.
    - subst ssc. by rewrite lookup_empty in Hall.
    - rewrite (run_bind_Ok _ _ self all self); [done|].
      rewrite (ssc_vols_getitem_run self ssc) by done.
      unfold subscript. by rewrite Hall. }
  exists pools. split; [exact Hrun|].
  apply get_pool_stats_Ok in Hrun. apply Forall2_length in Hrun.
  rewrite <- Hrun. unfold catalog_pools. rewrite Hssc, Hall. cbn.
  apply length_set_iter.
Qed.


(** What the loop body returns depends on the catalog and the
    multiplier only. *)
Lemma pool_of_ext {B B'} (s1 : Library B) (s2 : Library B') vol :
  ssc_vols s1 = ssc_vols s2 →
  netapp_size_multiplier (configuration s1)
  = netapp_size_multiplier (configuration s2) →
  (pool_of vol s1).1 = (pool_of vol s2).1.
Proof.
  intros Hssc Hmult. unfold pool_of, ssc_vols_getitem.
  cbv [mbind M_bind mret M_ret mthrow M_throw gets lift].
  rewrite Hmult.
  destruct (ssc_vols s2) as [ssc|] eqn:Hssc2;
    repeat (rewrite ?Hssc; cbn beta iota zeta;
            try (case_match; simplify_eq; try done)).
Qed.

Lemma pools_loop_ext {B B'} (s1 : Library B) (s2 : Library B') vols acc :
  ssc_vols s1 = ssc_vols s2 →
  netapp_size_multiplier (configuration s1)
  = netapp_size_multiplier (configuration s2) →
  (pools_loop vols acc s1).1 = (pools_loop vols acc s2).1.
Proof.
  intros Hssc Hmult. revert acc.
  induction vols as [|vol vols IH]; intros acc; [done|].
  cbn [pools_loop]. rewrite !run_bind.
  pose proof (pool_of_ext s1 s2 vol Hssc Hmult) as Hpool.
  pose proof (pool_of_read_only vol s1) as Hro1.
  pose proof (pool_of_read_only vol s2) as Hro2.
  destruct (pool_of vol s1) as [r1 t1], (pool_of vol s2) as [r2 t2].
  cbn in Hpool, Hro1, Hro2. subst r2 t1 t2.
  destruct r1; [apply IH|done].
Qed.

Lemma get_pool_stats_ext {B B'} (s1 : Library B) (s2 : Library B') :
  ssc_vols s1 = ssc_vols s2 →
  netapp_size_multiplier (configuration s1)
  = netapp_size_multiplier (configuration s2) →
  (_get_pool_stats s1).1 = (_get_pool_stats s2).1.
Proof.
  intros Hssc Hmult. unfold _get_pool_stats.
  rewrite (run_bind_Ok _ _ s1 (ssc_vols s1) s1) by done.
  rewrite (run_bind_Ok _ _ s2 (ssc_vols s2) s2) by done.
  rewrite Hssc. destruct (ssc_vols_falsy (ssc_vols s2)) eqn:Hfalsy; [done|].
  destruct (ssc_vols s2) as [ssc|] eqn:Hssc2; [|done].
  rewrite !run_bind.
  rewrite (ssc_vols_getitem_run s1 ssc), (ssc_vols_getitem_run s2 ssc) by done.
  destruct (subscript ssc "all") as [all|e]; [|done].
  apply pools_loop_ext; congruence.
Qed.

(** X21. What [_get_pool_stats] returns or raises depends on the
    catalog and the size multiplier only. Two drivers with the same
    multiplier and the same [ssc_vols] get the same outcome, whatever
    their stale sets, LUN tables and clients, and marking or draining
    pools on one of them does not change that; and once
    [refresh_ssc_vols] has installed the same catalog on both, they get
    the same outcome whatever catalogs they had before. *)
Theorem get_pool_stats_depends_on_catalog_only {B B'}
    (s1 : Library B) (s2 : Library B') :
  netapp_size_multiplier (configuration s1)
  = netapp_size_multiplier (configuration s2) →
  (ssc_vols s1 = ssc_vols s2 →
   (_get_pool_stats s1).1 = (_get_pool_stats s2).1
   ∧ ∀ volume reset,
       (_get_pool_stats (_update_stale_vols volume reset s1).2).1
       = (_get_pool_stats s2).1)
  ∧ (∀ vols,
       (_get_pool_stats (refresh_ssc_vols vols s1).2).1
       = (_get_pool_stats (refresh_ssc_vols vols s2).2).1).
Proof.
  intros Hmult. split.
  - intros Hssc. split; [by apply get_pool_stats_ext|].
    intros volume reset. apply get_pool_stats_ext.
    + rewrite <- Hssc, update_stale_vols_run. by destruct volume, reset.
    + rewrite <- Hmult, update_stale_vols_run. by destruct volume, reset.
  - intros vols. by apply get_pool_stats_ext.
Qed.

(** ** Publishing the volume statistics *)

Lemma run_bind_MD {B A C} (m : MD B A) (k : A → MD B C) (self : Driver B) :
  (m ≫= k) self =
  match m self with
  | (Ok a, self') => k a self'
  | (Raise e, self') => (Raise e, self')
  end.
Proof. reflexivity. Qed.

(** The whole behaviour of [_update_volume_stats], step by step. *)
Lemma update_volume_stats_run {B} `{!StatsCollaborators B} (self : Driver B) :
  let l := library self in
  let sync := match ssc_vols l with None => true | Some _ => false end in
  _update_volume_stats self =
  match get_connection (zapi_client l) with
  | (Raise e, b1) => (Raise e, set_library (set_zapi_client b1 l) self)
  | (Ok connection, b1) =>
      match refresh_cluster_ssc connection (vserver l) sync
                                (set_zapi_client b1 l) with
      | (Raise e, l2) => (Raise e, set_library l2 self)
      | (Ok _, l2) =>
          match _get_pool_stats l2 with
          | (Raise e, l3) => (Raise e, set_library l3 self)
          | (Ok pool_stats, l3) =>
              match provide_ems (driver_name self) (app_version self)
                                (zapi_client l3) with
              | (Raise e, b4) =>
                  (Raise e, set_library (set_zapi_client b4 l3) self)
              | (Ok _, b4) =>
                  (Ok tt,
                   set_stats
                     {| volume_backend_name :=
                          or_else (conf_volume_backend_name self)
                                  (driver_name self);
                        vendor_name := "NetApp";
                        driver_version := VERSION self;
                        storage_protocol := driver_protocol self;
                        pools := pool_stats |}
                     (set_library (set_zapi_client b4 l3) self))
              end
          end
      end
  end.
Proof.
  intros l sync. subst l sync. unfold _update_volume_stats.
  rewrite run_bind_MD. unfold in_library at 1, gets at 1.
  rewrite run_bind_MD. unfold in_library at 1, call at 1.
  cbn [library set_library].
  destruct (get_connection (zapi_client (library self)))
    as [[connection|e] b1]; [|done].
  rewrite run_bind_MD. unfold in_library at 1, gets at 1.
  cbn [library set_library vserver set_zapi_client].
  rewrite run_bind_MD. unfold in_library at 1. cbn [library set_library].
  destruct (refresh_cluster_ssc _ _ _ _) as [[[]|e] l2]; [|done].
  do 4 (rewrite run_bind_MD; unfold reads at 1).
  rewrite run_bind_MD. unfold in_library at 1. cbn [library set_library].
  destruct (_get_pool_stats l2) as [[pool_stats|e] l3]; [|done].
  do 2 (rewrite run_bind_MD; unfold reads at 1).
  rewrite run_bind_MD. unfold in_library at 1, call at 1.
  cbn [library set_library driver_name app_version].
  by destruct (provide_ems _ _ _) as [[[]|e] b4].
Qed.

(** X22. When [_update_volume_stats] returns, [_stats] holds the vendor
    name [NetApp], the driver's version and protocol, as backend name
    the configured one when that is a non-empty string and the driver
    name otherwise, and as pools exactly what [_get_pool_stats] returns
    on the library as the refresh left it; the refresh was asked to be
    synchronous exactly when no catalog was installed. *)
Theorem update_volume_stats_publishes {B} `{!StatsCollaborators B}
    (self : Driver B) :
  let l := library self in
  let after := _update_volume_stats self in
  after.1 = Ok tt →
  ∃ data connection b1 refreshed,
    _stats after.2 = Some data
    ∧ vendor_name data = "NetApp"
    ∧ driver_version data = VERSION self
    ∧ storage_protocol data = driver_protocol self
    ∧ (∀ s, conf_volume_backend_name self = Some s → s ≠ "" →
            volume_backend_name data = s)
    ∧ (conf_volume_backend_name self = None
       ∨ conf_volume_backend_name self = Some "" →
       volume_backend_name data = driver_name self)
    ∧ get_connection (zapi_client l) = (Ok connection, b1)
    ∧ refresh_cluster_ssc connection (vserver l)
        (bool_decide (ssc_vols l = None)) (set_zapi_client b1 l)
      = (Ok tt, refreshed)
    ∧ (_get_pool_stats refreshed).1 = Ok (pools data).
Proof.
  intros l after. subst l after. rewrite update_volume_stats_run.
  cbn zeta.
  assert (match ssc_vols (library self) with None => true | Some _ => false end
          = bool_decide (ssc_vols (library self) = None)) as ->
    by (by destruct (ssc_vols (library self))).
  destruct (get_connection _) as [[connection|e] b1] eqn:Hconn; [|done].
  destruct (refresh_cluster_ssc _ _ _ _) as [[[]|e] l2] eqn:Hrefresh;
    [|done].
  destruct (_get_pool_stats l2) as [[pool_stats|e] l3] eqn:Hstats; [|done].
  destruct (provide_ems _ _ _) as [[[]|e] b4]; [|done].
  intros _. eexists _, connection, b1, l2. cbn.
  split_and!; try done.
  - intros s -> Hne. cbn. apply String.eqb_neq in Hne. by rewrite Hne.
  - by intros [-> | ->].
  - by rewrite Hstats.
Qed.

(** X23. When [_update_volume_stats] raises, wherever the exception
    comes from (the connection, the refresh, the pool statistics or the
    usage report), the published [_stats] are the ones from before, and
    so are the driver's names and versions. *)
Theorem update_volume_stats_raises_keeps_stats {B} `{!StatsCollaborators B}
    (self : Driver B) (e : exn) :
  let after := _update_volume_stats self in
  after.1 = Raise e →
  _stats after.2 = _stats self
  ∧ after.2 = set_library (library after.2) self.
Proof.
  intros after. subst after. rewrite update_volume_stats_run. cbn zeta.
  destruct (get_connection _) as [[connection|e1] b1]; [|done].
  destruct (refresh_cluster_ssc _ _ _ _) as [[[]|e2] l2]; [|done].
  destruct (_get_pool_stats l2) as [[pool_stats|e3] l3]; [|done].
  by destruct (provide_ems _ _ _) as [[[]|e4] b4].
Qed.

(** X24. Cold start. On a driver with no catalog, when the connection
    is there, the synchronous refresh installs a catalog by
    [refresh_ssc_vols], that catalog has its five sets and pools that
    can be reported, and the usage report is accepted,
    [_update_volume_stats] returns, the catalog is installed, and the
    published statistics have one entry for each pool of its
    ['all']. *)
Theorem update_volume_stats_cold_start {B} `{!StatsCollaborators B}
    (self : Driver B) connection b1 b4 (vols : gmap string VolSet) all :
  let l := library self in
  ssc_vols l = None →
  get_connection (zapi_client l) = (Ok connection, b1) →
  refresh_cluster_ssc connection (vserver l) true (set_zapi_client b1 l)
    = refresh_ssc_vols vols (set_zapi_client b1 l) →
  catalog_complete vols →
  vols !! "all" = Some all →
  Forall (reportable (netapp_size_multiplier (configuration l)))
         (set_iter all) →
  provide_ems (driver_name self) (app_version self) b1 = (Ok tt, b4) →
  let after := _update_volume_stats self in
  after.1 = Ok tt
  ∧ ssc_vols (library after.2) = Some vols
  ∧ ∃ data, _stats after.2 = Some data ∧ length (pools data) = size all.
Proof.
  intros l Hcold Hconn Hrefresh Hcomplete Hall Hvols Hems after.
  subst l after. rewrite update_volume_stats_run. cbn zeta.
  rewrite Hcold, Hconn, Hrefresh.
  cbn [refresh_ssc_vols modify].
  set (l2 := set_ssc_vols (Some vols)
               (set_zapi_client b1 (library self))).
  destruct (get_pool_stats_returns l2 vols all) as (pool_stats & Hrun & Hlen);
    [done..|].
  rewrite Hrun. cbn [zapi_client l2 set_ssc_vols set_zapi_client].
  rewrite Hems. cbn. split_and!; [done|done|]. by eexists.
Qed.


(** ** The further properties on the example filers *)

(** On the example mapping filer the first igroup named with the prefix
    has no map, the second has two: the first of them is returned. *)
Lemma find_mapped_lun_igroup_sound_witness :
  let self := example_library example_map_filer in
  let after := _find_mapped_lun_igroup "openstack-" "/vol/P1/L1"
                 ["iqn.1993-08.org.debian:01:1"] self in
  after.1 = Ok (Some "openstack-2", Some "3")
  ∧ after.2 = set_zapi_client example_map_filer self
  ∧ ((Some "openstack-2", Some "3") = (None, None)
     ∨ ∃ igroup_name lun_id igroup lun_map,
         (Some "openstack-2", Some "3") = (Some igroup_name, Some lun_id)
         ∧ igroup ∈ filer_igroups example_map_filer
         ∧ lun_map ∈ filer_lun_maps example_map_filer
         ∧ maps_igroup "openstack-" igroup lun_map igroup_name lun_id).
Proof.
  assert (Hrun : (_find_mapped_lun_igroup "openstack-" "/vol/P1/L1"
                    ["iqn.1993-08.org.debian:01:1"]
                    (example_library example_map_filer)).1
                 = Ok (Some "openstack-2", Some "3"))
    by (vm_compute; reflexivity).
  split; [exact Hrun|].
  exact (find_mapped_lun_igroup_sound "openstack-"
           (example_library example_map_filer) "/vol/P1/L1"
           ["iqn.1993-08.org.debian:01:1"]
           (filer_igroups example_map_filer)
           (filer_lun_maps example_map_filer)
           example_map_filer example_map_filer _ eq_refl eq_refl Hrun).
Defined.

(** With maps for the manual igroup only, nothing is found and indeed
    no prefixed igroup has a map. *)
Lemma find_mapped_lun_igroup_complete_witness :
  let filer :=
    {| filer_igroups := filer_igroups example_map_filer;
       filer_lun_maps :=
         [ {[ "initiator-group" := "manual-ig"; "lun-id" := "0" ]} ] |} in
  (_find_mapped_lun_igroup "openstack-" "/vol/P1/L1" []
     (example_library filer)).1 = Ok (None, None)
  ∧ ∀ igroup lun_map igroup_name,
      igroup ∈ filer_igroups filer → lun_map ∈ filer_lun_maps filer →
      igroup !! "initiator-group-name" = Some igroup_name →
      String.prefix "openstack-" igroup_name = true →
      lun_map !! "initiator-group" ≠ Some igroup_name.
Proof.
  intros filer.
  assert (Hrun : (_find_mapped_lun_igroup "openstack-" "/vol/P1/L1" []
                    (example_library filer)).1 = Ok (None, None))
    by (vm_compute; reflexivity).
  split; [exact Hrun|].
  exact (find_mapped_lun_igroup_complete "openstack-"
           (example_library filer) "/vol/P1/L1" []
           (filer_igroups filer) (filer_lun_maps filer) filer filer
           eq_refl eq_refl Hrun).
Defined.

Lemma find_mapped_lun_igroup_first_match_witness :
  ∃ before igroup after mbefore lun_map mafter,
    filer_igroups example_map_filer = before ++ igroup :: after
    ∧ filer_lun_maps example_map_filer = mbefore ++ lun_map :: mafter
    ∧ maps_igroup "openstack-" igroup lun_map "openstack-2" "3"
    ∧ unmapped "openstack-2" mbefore
    ∧ passed_over "openstack-" (filer_lun_maps example_map_filer) before.
Proof.
  apply (find_mapped_lun_igroup_first_match "openstack-"
           (example_library example_map_filer) "/vol/P1/L1" []
           (filer_igroups example_map_filer)
           (filer_lun_maps example_map_filer)
           example_map_filer example_map_filer "openstack-2" "3");
    vm_compute; reflexivity.
Defined.

(** No maps at all: the igroups are not read, not even one without a
    name. *)
Lemma find_mapped_lun_igroup_empty_witness :
  let filer := {| filer_igroups := [ ∅ ]; filer_lun_maps := [] |} in
  _find_mapped_lun_igroup "openstack-" "/vol/P1/L1" []
    (example_library filer)
  = (Ok (None, None), set_zapi_client filer (example_library filer)).
Proof.
  intros filer.
  apply (find_mapped_lun_igroup_empty "openstack-" (example_library filer)
           "/vol/P1/L1" [] (filer_igroups filer) (filer_lun_maps filer)
           filer filer); [reflexivity|reflexivity|].
  right. reflexivity.
Defined.

Lemma find_mapped_lun_igroup_finds_witness :
  let after := _find_mapped_lun_igroup "openstack-" "/vol/P1/L1" []
                 (example_library example_map_filer) in
  (∃ found, after.1 = Ok found)
  ∧ ∃ igroup_name lun_id, after.1 = Ok (Some igroup_name, Some lun_id).
Proof.
  destruct (find_mapped_lun_igroup_finds "openstack-"
              (example_library example_map_filer) "/vol/P1/L1" []
              (filer_igroups example_map_filer)
              (filer_lun_maps example_map_filer)
              example_map_filer example_map_filer)
    as [Hret Hfinds].
  - reflexivity.
  - reflexivity.
  - repeat first [ apply Forall_nil_2 | apply Forall_cons_2 ];
      eexists; reflexivity.
  - repeat first [ apply Forall_nil_2 | apply Forall_cons_2 ].
    all: split; eexists; reflexivity.
  - split; [exact Hret|]. apply Hfinds.
    exists {[ "initiator-group-name" := "openstack-2" ]},
           {[ "initiator-group" := "openstack-2"; "lun-id" := "3" ]},
           "openstack-2", "3".
    split; [|split].
    + do 2 apply list_elem_of_further. apply list_elem_of_here.
    + apply list_elem_of_further. apply list_elem_of_here.
    + unfold maps_igroup. split_and!; reflexivity.
Defined.

(** A map without a LUN id for the igroup that is looked for. *)
Lemma find_mapped_lun_igroup_raises_key_error_witness :
  let filer :=
    {| filer_igroups := [ {[ "initiator-group-name" := "openstack-1" ]} ];
       filer_lun_maps := [ {[ "initiator-group" := "openstack-1" ]} ] |} in
  (_find_mapped_lun_igroup "openstack-" "/vol/P1/L1" []
     (example_library filer)).1 = Raise (KeyError "lun-id")
  ∧ (KeyError "lun-id" = KeyError "initiator-group-name"
     ∨ KeyError "lun-id" = KeyError "initiator-group"
     ∨ KeyError "lun-id" = KeyError "lun-id").
Proof.
  intros filer.
  assert (Hrun : (_find_mapped_lun_igroup "openstack-" "/vol/P1/L1" []
                    (example_library filer)).1 = Raise (KeyError "lun-id"))
    by (vm_compute; reflexivity).
  split; [exact Hrun|].
  exact (find_mapped_lun_igroup_raises_key_error "openstack-"
           (example_library filer) "/vol/P1/L1" []
           (filer_igroups filer) (filer_lun_maps filer) filer filer _
           eq_refl eq_refl Hrun).
Defined.

(** Marking [P1] on the driver whose stale set holds [P2] and draining:
    the copy holds both, and the next drain finds nothing. *)
Lemma marks_reach_next_drain_witness :
  let self := example_library tt in
  let drained :=
    _update_stale_vols None true (mark_each [example_pool_P1] self).2 in
  is_Some (objects self !! stale_vols self)
  ∧ ∃ set_copy,
      drained.1 = Ok (Some set_copy)
      ∧ set_in example_pool_P1 (deref set_copy drained.2) = true
      ∧ set_in example_pool_P2 (deref set_copy drained.2) = true
      ∧ stale_set drained.2 = ∅.
Proof.
  assert (Hobj : is_Some (objects (example_library tt)
                          !! stale_vols (example_library tt)))
    by (eexists; reflexivity).
  split; [exact Hobj|].
  destruct (marks_reach_next_drain (example_library tt) [example_pool_P1]
              None Hobj) as ((set_copy & Hret & _ & Hin & Hempty) & _).
  exists set_copy. split; [exact Hret|].
  split; [|split; [|exact Hempty]]; rewrite Hin; vm_compute; reflexivity.
Defined.

(** A set object beside the stale set is left alone by a mark and a
    drain. *)
Lemma update_stale_vols_keeps_other_objects_witness :
  let self :=
    {| vserver := "vs1"; configuration := example_configuration;
       zapi_client := tt; lun_table := ∅; ssc_vols := None;
       objects := {[ 7%nat := ∅;
                     8%nat := {[ vol_id example_pool_P2 := example_pool_P2 ]} ]};
       stale_vols := 7%nat |} in
  objects (_update_stale_vols (Some example_pool_P1) true self).2 !! 8%nat
  = Some {[ vol_id example_pool_P2 := example_pool_P2 ]}.
Proof.
  intros self.
  apply (update_stale_vols_keeps_other_objects self 8%nat
           {[ vol_id example_pool_P2 := example_pool_P2 ]}
           (Some example_pool_P1) true).
  - vm_compute. reflexivity.
  - discriminate.
Defined.

(** Cloning [L1] to [L2] on the example filer. *)
Lemma clone_lun_registers_first_record_witness :
  let self := example_library example_filer in
  let after := _clone_lun "L1" "L2" "true" 0 0 0 self in
  after.1 = Ok tt
  ∧ lun_handle <$> lun_table after.2 !! "L2" = Some "vs1:/vol/P1/L2"
  ∧ lun_table after.2 !! "L1" = Some example_lun
  ∧ stale_set after.2
    = set_add (NetAppVolume_init (Some "P1") (Some "vs1")) (stale_set self).
Proof.
  edestruct (clone_lun_registers_first_record
               (example_library example_filer) "L1" "L2" "true" 0 0 0
               example_lun (Some "P1"))
    as (Hret & Hnew & Hother & Hstale & _);
    [vm_compute; reflexivity..|].
  split; [exact Hret|]. split; [by rewrite Hnew|].
  split; [|exact Hstale].
  rewrite Hother by discriminate. vm_compute. reflexivity.
Defined.



(** The handle of a path, and the paths of equal handles. *)
Lemma create_lun_handle_injective_witness :
  let self := example_library tt in
  let metadata : Metadata := {[ "Path" := Some "/vol/P1/L1" ]} in
  let metadata' : Metadata :=
    {[ "Path" := Some "/vol/P1/L1"; "Volume" := Some "P1" ]} in
  (_create_lun_handle metadata self).1 = Ok "vs1:/vol/P1/L1"
  ∧ ∃ path path',
      metadata !! "Path" = Some path ∧ metadata' !! "Path" = Some path'
      ∧ fmt_s path = fmt_s path'
      ∧ ∀ p p', path = Some p → path' = Some p' → p = p'.
Proof.
  intros self metadata metadata'.
  split; [vm_compute; reflexivity|].
  apply (create_lun_handle_injective self metadata metadata'
           "vs1:/vol/P1/L1"); vm_compute; reflexivity.
Defined.

Lemma clone_lun_handle_agrees_witness :
  let self := example_library example_filer in
  let after := (_clone_lun "L1" "L2" "true" 0 0 0 self).2 in
  ∃ clone,
    lun_table after !! "L2" = Some clone
    ∧ (_create_lun_handle (lun_metadata clone) after).1
      = Ok (lun_handle clone).
Proof.
  eapply (clone_lun_handle_agrees (example_library example_filer)
            "L1" "L2" "true" 0 0 0 example_lun (Some "P1"));
    vm_compute; reflexivity.
Defined.

(** A tracked LUN whose metadata records the empty pool name. *)
Lemma delete_volume_without_pool_witness :
  let lun :=
    {| lun_handle := "vs1:/vol//L5"; lun_name := "L5"; lun_size := None;
       lun_metadata := {[ "Volume" := Some "" ]} |} in
  let self :=
    set_lun_table {[ "L5" := lun ]} (example_library example_filer) in
  delete_volume ∅ self = (Raise (KeyError "name"), self)
  ∧ (delete_volume {[ "name" := "L5" ]} self).1 = Ok tt
  ∧ objects (delete_volume {[ "name" := "L5" ]} self).2 = objects self.
Proof.
  intros lun self.
  pose proof (delete_volume_without_pool self ∅) as (Hnoname & _).
  pose proof (delete_volume_without_pool self {[ "name" := "L5" ]})
    as (_ & Hnopool).
  split; [apply Hnoname; reflexivity|].
  destruct (Hnopool "L5" lun) as (Hrun & Hobjects);
    [vm_compute; reflexivity | vm_compute; reflexivity
    | right; vm_compute; reflexivity |].
  split; [by rewrite Hrun|exact Hobjects].
Defined.

Lemma example_catalog_pools :
  set_iter (default ∅ (example_catalog !! "all"))
  = [example_pool_P1; example_pool_P2].
Proof. vm_compute. reflexivity. Qed.

Lemma example_pools_reportable :
  Forall (reportable (float_of_Z 1)) [example_pool_P1; example_pool_P2].
Proof.
  repeat first [ apply Forall_nil_2 | apply Forall_cons_2 ].
  all: split_and!;
    [ eexists _, _; split_and!; [reflexivity|vm_compute; reflexivity|done]
    | eexists _, _; split_and!; [reflexivity|vm_compute; reflexivity|done]
    | eexists; reflexivity
    | eexists; reflexivity ].
Qed.

Lemma example_catalog_complete : catalog_complete example_catalog.
Proof. unfold catalog_complete. split_and!; eexists; reflexivity. Qed.

(** The two pools of the example catalog give two entries. *)
Lemma pool_stats_one_entry_per_pool_witness :
  let self := example_library tt in
  ∃ pools,
    _get_pool_stats self = (Ok pools, self)
    ∧ length pools = 2%nat
    ∧ Forall (fun pool => QoS_support pool = false
                          ∧ reserved_percentage pool = 0) pools.
Proof.
  assert (Hrun : ∃ pools, _get_pool_stats (example_library tt)
                          = (Ok pools, example_library tt))
    by (eexists; vm_compute; reflexivity).
  destruct Hrun as [pools Hrun]. exists pools. split; [exact Hrun|].
  destruct (pool_stats_one_entry_per_pool (example_library tt)
              (example_library tt) pools Hrun) as [Hentries Hlen].
  split.
  - rewrite (Hlen example_catalog
               {[ vol_id example_pool_P1 := example_pool_P1;
                  vol_id example_pool_P2 := example_pool_P2 ]})
      by reflexivity.
    vm_compute. reflexivity.
  - eapply Forall2_Forall_r; [exact Hentries|].
    apply Forall_true. intros vol pool. tauto.
Defined.

Lemma get_pool_stats_returns_witness :
  ∃ pools, _get_pool_stats (example_library tt)
           = (Ok pools, example_library tt)
           ∧ length pools = 2%nat.
Proof.
  destruct (get_pool_stats_returns (example_library tt) example_catalog
              {[ vol_id example_pool_P1 := example_pool_P1;
                 vol_id example_pool_P2 := example_pool_P2 ]})
    as (pools & Hrun & Hlen).
  - reflexivity.
  - exact example_catalog_complete.
  - reflexivity.
  - change (Forall (reportable (float_of_Z 1))
              (set_iter (default ∅ (example_catalog !! "all")))).
    rewrite example_catalog_pools. exact example_pools_reportable.
  - exists pools. split; [exact Hrun|]. rewrite Hlen.
    vm_compute. reflexivity.
Defined.


(** Two drivers with the example catalog, one with a filer behind it
    and a LUN more in its table, report the same. *)
Lemma get_pool_stats_depends_on_catalog_only_witness :
  let s1 := example_library tt in
  let s2 := set_lun_table ∅ (example_library example_filer) in
  (_get_pool_stats s1).1 = (_get_pool_stats s2).1
  ∧ (_get_pool_stats
       (_update_stale_vols (Some example_pool_P1) true s1).2).1
    = (_get_pool_stats s2).1.
Proof.
  intros s1 s2.
  destruct (get_pool_stats_depends_on_catalog_only s1 s2 eq_refl)
    as [Hsame _].
  destruct (Hsame eq_refl) as [Hstats Hmarked].
  split; [exact Hstats|apply Hmarked].
Defined.

(** The first statistics of a driver without a catalog. *)
Lemma update_volume_stats_cold_start_witness :
  let self := example_driver (example_cold_library example_filer) in
  let after := _update_volume_stats self in
  after.1 = Ok tt
  ∧ ssc_vols (library after.2) = Some example_catalog
  ∧ ∃ data, _stats after.2 = Some data ∧ length (pools data) = 2%nat.
Proof.
  destruct (update_volume_stats_cold_start
              (example_driver (example_cold_library example_filer))
              (tt : @Connection Filer Filer_stats)
              example_filer example_filer example_catalog
              {[ vol_id example_pool_P1 := example_pool_P1;
                 vol_id example_pool_P2 := example_pool_P2 ]})
    as (Hret & Hcatalog & data & Hstats & Hlen).
  - reflexivity.
  - reflexivity.
  - reflexivity.
  - exact example_catalog_complete.
  - reflexivity.
  - change (Forall (reportable (float_of_Z 1))
              (set_iter (default ∅ (example_catalog !! "all")))).
    rewrite example_catalog_pools. exact example_pools_reportable.
  - reflexivity.
  - split; [exact Hret|]. split; [exact Hcatalog|].
    exists data. split; [exact Hstats|]. rewrite Hlen.
    vm_compute. reflexivity.
Defined.


(** What is published on the example driver, which has no backend name
    configured. *)
Lemma update_volume_stats_publishes_witness :
  let self := example_driver (example_library example_filer) in
  let after := _update_volume_stats self in
  after.1 = Ok tt
  ∧ ∃ data,
      _stats after.2 = Some data
      ∧ vendor_name data = "NetApp"
      ∧ volume_backend_name data = "NetApp_iSCSI_Cluster_direct"
      ∧ driver_version data = "1.0.0"
      ∧ storage_protocol data = "iSCSI".
Proof.
  assert (Hrun : (_update_volume_stats
                    (example_driver (example_library example_filer))).1
                 = Ok tt) by (vm_compute; reflexivity).
  split; [exact Hrun|].
  destruct (update_volume_stats_publishes
              (example_driver (example_library example_filer)) Hrun)
    as (data & _ & _ & _ & Hstats & Hvendor & Hversion & Hprotocol
        & _ & Hname & _).
  exists data. split; [exact Hstats|]. split; [exact Hvendor|].
  split; [apply Hname; by left|]. split; [exact Hversion|exact Hprotocol].
Defined.

(** On a filer that cannot be reached nothing is published. *)
Lemma update_volume_stats_raises_keeps_stats_witness :
  let self := example_driver (example_library example_filer_down) in
  let after := _update_volume_stats self in
  after.1 = Raise (NaApiError "13001" "connection refused")
  ∧ _stats after.2 = None.
Proof.
  assert (Hrun : (_update_volume_stats
                    (example_driver (example_library example_filer_down))).1
                 = Raise (NaApiError "13001" "connection refused"))
    by (vm_compute; reflexivity).
  split; [exact Hrun|].
  destruct (update_volume_stats_raises_keeps_stats
              (example_driver (example_library example_filer_down)) _ Hrun)
    as [Hstats _].
  exact Hstats.
Defined.
